(** * The Postgres connector: schema introspection and query execution

    A shallow embedding of the [PostgresPlugin] class.  Two revisions of the
    class are part of the repository and both are embedded:

    - [src/src/index.ts], the revision built on [DatabasePlugin]
      (module [Index] below);
    - [src/unnamed/part_000], the revision built on [BasePlugin]
      (module [Part000] below).

    The folding of the catalog rows into tables is textually the same in the
    two revisions and is embedded once (module [Fold]).  The [pg] driver is
    modelled by a record that fixes how [connect], [query] and [end] answer;
    every call made on the client is appended to a trace. *)

From Stdlib Require Import ZArith.
From stdpp Require Import base list strings gmap.

(** ** Strings *)

Module Str.

(** The double quote character, U+0022. *)
Definition dquote : string := String (Ascii.ascii_of_nat 34) EmptyString.

(** [String.prototype.toLowerCase], on strings of ASCII characters: the
    letters [A]..[Z] (codes 65..90) are moved to [a]..[z], every other
    character is kept.  The function is the one of JavaScript on the strings
    whose characters all have a code below 128, and on those only: a
    capital letter outside ASCII is lowered by JavaScript and kept here.
    A statement that rests on the values of this function is made for
    names of ASCII characters. *)
Definition lower_char (c : Ascii.ascii) : Ascii.ascii :=
  let n := Ascii.nat_of_ascii c in
  if (65 <=? n)%nat && (n <=? 90)%nat then Ascii.ascii_of_nat (n + 32) else c.

Fixpoint toLowerCase (s : string) : string :=
  match s with
  | EmptyString => EmptyString
  | String c s' => String (lower_char c) (toLowerCase s')
  end.

(** The template literal [`"${s}"`]. *)
Definition quoted (s : string) : string := dquote +:+ s +:+ dquote.

End Str.

(** ** The schema graph ([Table], [Column], key descriptors) *)

Inductive TableType := TABLE.

Record Column := mkColumn { col_name : string; col_type : string }.

Inductive KeyType := primary_key | foreign_key.

Record Key := mkKey { key_name : string; key_type : KeyType }.

(** Modelled from the spec: the classes [Table] and [Column] come from the
    package [@superblocksteam/shared]; a fresh [Table] has a name, a kind,
    an empty column sequence and an empty key sequence. *)
Record Table := mkTable {
  name : string;
  type : TableType;
  columns : list Column;
  keys : list Key
}.

Definition new_Table (n : string) (ty : TableType) : Table :=
  {| name := n; type := ty; columns := []; keys := [] |}.

Definition set_columns (t : Table) (cs : list Column) : Table :=
  {| name := name t; type := type t; columns := cs; keys := keys t |}.

Definition set_keys (t : Table) (ks : list Key) : Table :=
  {| name := name t; type := type t; columns := columns t; keys := ks |}.

#[global] Instance TableType_eq_dec : EqDecision TableType.
Proof. solve_decision. Defined.
#[global] Instance Column_eq_dec : EqDecision Column.
Proof. solve_decision. Defined.
#[global] Instance KeyType_eq_dec : EqDecision KeyType.
Proof. solve_decision. Defined.
#[global] Instance Key_eq_dec : EqDecision Key.
Proof. solve_decision. Defined.
#[global] Instance Table_eq_dec : EqDecision Table.
Proof. solve_decision. Defined.

(** ** Catalog rows

    The rows answered for [TableQuery] and [KeysQuery] (queries.ts); the
    fields are the columns the two statements select. *)

Record AttributeRow := mkAttributeRow {
  attr_name : string;           (* a.attname as name *)
  column_type : string;         (* t1.typname as column_type *)
  default_expr : option string; (* null when the column has no default *)
  kind : string;                (* c.relkind as kind *)
  table_name : string;          (* c.relname as table_name *)
  schema_name : string          (* n.nspname as schema_name *)
}.

Record KeyRow := mkKeyRow {
  constraint_name : string;
  constraint_type : string;
  self_schema : string;
  self_table : string;
  self_columns : list string;
  foreign_schema : option string;
  foreign_table : option string;
  foreign_columns : list string;
  definition : string
}.

(** ** Folding the catalog rows (PostgresPlugin.metadata) *)

Module Fold.

(** The callback given to [tableResult.rows.reduce] (index.ts, lines 75-91;
    part_000, lines 84-100).  [acc.find] returns the first table with the
    name; assigning [entity.columns] changes that one object, which sits at
    its index in [acc] and nowhere else. *)
Definition reducer (acc : list Table) (attribute : AttributeRow) : list Table :=
  let entityName := table_name attribute in
  let entityType := TABLE in
  match list_find (λ o, name o = entityName) acc with
  | Some (i, entity) =>
      let columns0 := columns entity in
      let isColumnNameCased :=
        negb (bool_decide (attr_name attribute = Str.toLowerCase (attr_name attribute))) in
      <[ i := set_columns entity
                (columns0 ++ [mkColumn (if isColumnNameCased
                                        then Str.quoted (attr_name attribute)
                                        else attr_name attribute)
                                       (column_type attribute)]) ]> acc
  | None =>
      let table := new_Table entityName entityType in
      let table := set_columns table
                     (columns table ++ [mkColumn (attr_name attribute) (column_type attribute)]) in
      acc ++ [table]
  end.

(** [tableResult.rows.reduce(reducer, [])]. *)
Definition entities (rows : list AttributeRow) : list Table :=
  fold_left reducer rows [].

(** The object literal pushed on [table.keys]. *)
Definition key_of (key : KeyRow) : Key :=
  {| key_name := constraint_name key;
     key_type := if bool_decide (constraint_type key = "p") then primary_key else foreign_key |}.

(** The callback given to [keysResult.rows.forEach] (index.ts, lines 97-102;
    part_000, lines 104-109); the tables are changed in place, so the state
    threaded here is the sequence [entities]. *)
Definition add_key (ents : list Table) (key : KeyRow) : list Table :=
  match list_find (λ e, name e = self_table key) ents with
  | Some (i, table) => <[ i := set_keys table (keys table ++ [key_of key]) ]> ents
  | None => ents
  end.

Definition add_keys (ents : list Table) (rows : list KeyRow) : list Table :=
  fold_left add_key rows ents.

(** The value of [dbSchema.tables] for given answers to the two queries. *)
Definition schema_tables (rows : list AttributeRow) (keyrows : list KeyRow)
    : list Table :=
  add_keys (entities rows) keyrows.

End Fold.

(** ** The fixed catalog statements (queries.ts) *)

Definition TableQuery : string :=
  "select a.attname as name," +:+
  "       t1.typname as column_type," +:+
  "       case when a.atthasdef then pg_get_expr(d.adbin, d.adrelid) end as default_expr," +:+
  "       c.relkind as kind," +:+
  "       c.relname as table_name," +:+
  "       n.nspname as schema_name " +:+
  "from pg_catalog.pg_attribute a " +:+
  "         left join pg_catalog.pg_type t1 on t1.oid = a.atttypid " +:+
  "         inner join pg_catalog.pg_class c on a.attrelid = c.oid " +:+
  "         left join pg_catalog.pg_namespace n on c.relnamespace = n.oid " +:+
  "         left join pg_catalog.pg_attrdef d on d.adrelid = c.oid and d.adnum = a.attnum " +:+
  "where a.attnum > 0 " +:+
  "  and not a.attisdropped " +:+
  "  and n.nspname not in ('information_schema', 'pg_catalog') " +:+
  "  and c.relkind in ('r', 'v') " +:+
  "  and pg_catalog.pg_table_is_visible(a.attrelid) " +:+
  "order by c.relname, a.attnum;".

Definition KeysQuery : string :=
  "select c.conname as constraint_name," +:+
  "       c.contype as constraint_type," +:+
  "       sch.nspname as self_schema," +:+
  "       tbl.relname as self_table," +:+
  "       array_agg(col.attname order by u.attposition)     as self_columns," +:+
  "       f_sch.nspname                                     as foreign_schema," +:+
  "       f_tbl.relname                                     as foreign_table," +:+
  "       array_agg(f_col.attname order by f_u.attposition) as foreign_columns," +:+
  "       pg_get_constraintdef(c.oid)                       as definition" +:+
  " from pg_constraint c " +:+
  "         left join lateral unnest(c.conkey) with ordinality as u(attnum, attposition) on true " +:+
  "         left join lateral unnest(c.confkey) with ordinality as f_u(attnum, attposition) " +:+
  "                   on f_u.attposition = u.attposition " +:+
  "         join pg_class tbl on tbl.oid = c.conrelid " +:+
  "         join pg_namespace sch on sch.oid = tbl.relnamespace " +:+
  "         left join pg_attribute col on (col.attrelid = tbl.oid and col.attnum = u.attnum) " +:+
  "         left join pg_class f_tbl on f_tbl.oid = c.confrelid " +:+
  "         left join pg_namespace f_sch on f_sch.oid = f_tbl.relnamespace " +:+
  "         left join pg_attribute f_col on (f_col.attrelid = f_tbl.oid and f_col.attnum = f_u.attnum) " +:+
  "group by constraint_name, constraint_type, self_schema, self_table, definition, foreign_schema, foreign_table " +:+
  "order by self_schema, self_table".

(** ** Configuration and requests

    The shapes come from [@superblocksteam/shared]; every property read by
    the plugin is optional there.  [databaseName] stands for the chain
    [auth.custom?.databaseName?.value]. *)

Inductive JsValue :=
| JsUndefined
| JsNull
| JsBool (b : bool)
| JsNumber (z : Z)
| JsString (s : string).

#[global] Instance JsValue_eq_dec : EqDecision JsValue.
Proof. solve_decision. Defined.

Record Endpoint := mkEndpoint { host : option string; port : option Z }.

Record Authentication := mkAuthentication {
  username : option string;
  password : option string;
  databaseName : option string
}.

Record ConnectionOptions := mkConnectionOptions {
  useSsl : option bool;
  useSelfSignedSsl : option bool;
  ca : option string;
  key : option string;
  cert : option string
}.

Record PostgresDatasourceConfiguration := mkConfiguration {
  endpoint : option Endpoint;
  authentication : option Authentication;
  connection : option ConnectionOptions
}.

Record ExecutionContext := mkContext {
  preparedStatementContext : option (list JsValue)
}.

Record PostgresActionConfiguration := mkAction { body : option string }.

Record PluginExecutionProps := mkProps {
  context : ExecutionContext;
  datasourceConfiguration : option PostgresDatasourceConfiguration;
  actionConfiguration : PostgresActionConfiguration
}.

(** A row of a user statement: column name to value, in column order. *)
Definition RawRow : Type := list (string * JsValue).

(** Modelled from the spec: [ExecutionOutput] comes from
    [@superblocksteam/shared]; a fresh one holds no result, [output] is
    filled by the plugin. *)
Record ExecutionOutput := mkOutput { output : option (list RawRow) }.

Definition new_ExecutionOutput : ExecutionOutput := {| output := None |}.

Record DbSchema := mkDbSchema { tables : list Table }.
Record DatasourceMetadataDto := mkMetadata { dbSchema : DbSchema }.

(** JavaScript truthiness of the optional values the plugin tests. *)
Definition truthy_string (v : option string) : bool :=
  match v with
  | Some s => negb (bool_decide (s = EmptyString))
  | None => false
  end.

Definition truthy_bool (v : option bool) : bool :=
  match v with Some b => b | None => false end.

Definition js_of_string (v : option string) : JsValue :=
  match v with Some s => JsString s | None => JsUndefined end.

(** lodash [isEmpty] on the values [actionConfiguration.body] can take: a
    string is empty when its length is 0; [undefined] is empty. *)
Definition isEmpty (value : option string) : bool :=
  match value with
  | Some s => bool_decide (String.length s = 0)
  | None => true
  end.

(** ** The driver

    [new Client(options)] and the calls made on the client.  A [Driver]
    fixes the answers of the server for one operation. *)

Record ClientConfig := mkClientConfig {
  cc_host : option string;
  cc_user : option string;
  cc_password : option string;
  cc_database : option string;
  cc_port : option Z;
  cc_ssl : option (gmap string JsValue);
  cc_connectionTimeoutMillis : Z
}.

Record Client := mkClient { client_options : ClientConfig }.

Inductive Event :=
| NewClient (options : ClientConfig)
| On (event_name : string)
| Connect
| Query (sql : string) (values : option (list JsValue))
| End.

Inductive Answer (A : Type) :=
| Rows (rows : list A)
| Fails (message : string).
Arguments Rows {A} rows.
Arguments Fails {A} message.

Record Driver := mkDriver {
  connect_answer : option string;   (* [Some m]: [connect()] rejects with message [m] *)
  query_answer : string → option (list JsValue) → Answer RawRow;
  table_answer : Answer AttributeRow;   (* the answer to [TableQuery] *)
  keys_answer : Answer KeyRow;          (* the answer to [KeysQuery] *)
  end_answer : option string        (* [Some m]: [end()] rejects with message [m] *)
}.

(** ** Effects: the calls made so far, the variable [client], failures *)

Inductive Error :=
| DriverError (message : string)        (* raised by the driver *)
| IntegrationError (message : string).  (* [new IntegrationError(message)] *)

Definition message (err : Error) : string :=
  match err with DriverError m | IntegrationError m => m end.

Inductive Outcome (A : Type) :=
| Returned (a : A)
| Thrown (err : Error).
Arguments Returned {A} a.
Arguments Thrown {A} err.

Record State := mkState {
  calls : list Event;          (* the calls on the driver, oldest first *)
  var_client : option Client   (* [let client] of [metadata] and [test] *)
}.

Definition initial : State := {| calls := []; var_client := None |}.

Definition M (A : Type) : Type := State → Outcome A * State.

#[global] Instance M_ret : MRet M := λ A a st, (Returned a, st).

#[global] Instance M_bind : MBind M := λ A B f m st,
  match m st with
  | (Returned a, st') => f a st'
  | (Thrown e, st') => (Thrown e, st')
  end.

#[global] Instance M_throw : MThrow Error M := λ A e st, (Thrown e, st).

Definition emit (ev : Event) : M unit :=
  λ st, (Returned (), {| calls := calls st ++ [ev]; var_client := var_client st |}).

Definition set_client (c : option Client) : M unit :=
  λ st, (Returned (), {| calls := calls st; var_client := c |}).

Definition get_client : M (option Client) :=
  λ st, (Returned (var_client st), st).

(** [try { body } catch (err) { handler }]: the handler runs when the body
    throws. *)
Definition try_catch {A} (body : M A) (handler : Error → M A) : M A :=
  λ st,
    match body st with
    | (Returned a, st') => (Returned a, st')
    | (Thrown e, st') => handler e st'
    end.

(** [try { body } finally { finalizer }]: the finalizer runs in every case;
    when it throws, its failure replaces the pending result. *)
Definition try_finally {A} (body : M A) (finalizer : M unit) : M A :=
  λ st,
    let '(o, st1) := body st in
    match finalizer st1 with
    | (Returned _, st2) => (o, st2)
    | (Thrown e, st2) => (Thrown e, st2)
    end.

(** [try { body } catch (err) { handler } finally { finalizer }]. *)
Definition try_catch_finally {A} (body : M A) (handler : Error → M A)
    (finalizer : M unit) : M A :=
  try_finally (try_catch body handler) finalizer.

(** [if (client) { ... }] on a client that may be [null] or [undefined]. *)
Definition if_client (client : option Client) (then_ : Client → M unit) : M unit :=
  match client with
  | Some c => then_ c
  | None => mret ()
  end.

(** [promise.catch(() => {})] on the promise of an [async] method that is
    called and not awaited: the calls of the method are made, its rejection
    is dropped. *)
Definition catch_ignore (m : M unit) : M unit :=
  λ st, (Returned (), snd (m st)).

Definition run {A} (m : M A) : Outcome A * State := m initial.
Definition outcome {A} (m : M A) : Outcome A := fst (run m).
Definition trace {A} (m : M A) : list Event := calls (snd (run m)).

Definition new_Client (options : ClientConfig) : M Client :=
  emit (NewClient options);; mret (mkClient options).

Definition client_on (c : Client) (event_name : string) : M unit :=
  emit (On event_name).

Definition answer {A} (a : Answer A) : M (list A) :=
  match a with
  | Rows rows => mret rows
  | Fails m => mthrow (DriverError m)
  end.

Definition client_connect (d : Driver) (c : Client) : M unit :=
  emit Connect;;
  match connect_answer d with
  | Some m => mthrow (DriverError m)
  | None => mret ()
  end.

Definition client_query (d : Driver) (c : Client) (sql : string)
    (values : option (list JsValue)) : M (list RawRow) :=
  emit (Query sql values);; answer (query_answer d sql values).

Definition client_query_table (d : Driver) (c : Client) : M (list AttributeRow) :=
  emit (Query TableQuery None);; answer (table_answer d).

Definition client_query_keys (d : Driver) (c : Client) : M (list KeyRow) :=
  emit (Query KeysQuery None);; answer (keys_answer d).

Definition client_end (d : Driver) (c : Client) : M unit :=
  emit End;;
  match end_answer d with
  | Some m => mthrow (DriverError m)
  | None => mret ()
  end.

(** What the trace says. *)
Definition is_Connect (ev : Event) : bool :=
  match ev with Connect => true | _ => false end.
Definition is_End (ev : Event) : bool :=
  match ev with End => true | _ => false end.

Definition opens (tr : list Event) : nat := length (List.filter is_Connect tr).
Definition closes (tr : list Event) : nat := length (List.filter is_End tr).

Definition statements (tr : list Event) : list string :=
  omap (λ ev, match ev with Query sql _ => Some sql | _ => None end) tr.

Definition client_configs (tr : list Event) : list ClientConfig :=
  omap (λ ev, match ev with NewClient o => Some o | _ => None end) tr.

Definition TEST_CONNECTION_TIMEOUT : Z := 5000.

(** The option set built for TLS (the same statements in both revisions). *)
Definition ssl_config_of (cfg : PostgresDatasourceConfiguration)
    : option (gmap string JsValue) :=
  if truthy_bool (connection cfg ≫= useSsl) then
    let ssl_config : gmap string JsValue := {[ "rejectUnauthorized" := JsBool false ]} in
    if truthy_bool (connection cfg ≫= useSelfSignedSsl) then
      let ssl_config := <[ "ca" := js_of_string (connection cfg ≫= ca) ]> ssl_config in
      let ssl_config := <[ "key" := js_of_string (connection cfg ≫= key) ]> ssl_config in
      let ssl_config := <[ "cert" := js_of_string (connection cfg ≫= cert) ]> ssl_config in
      Some ssl_config
    else Some ssl_config
  else None.

(** [attachLoggerToClient] (the same in both revisions): four listeners are
    registered; the listeners only write to the logger. *)
Definition attachLoggerToClient (client : Client)
    (cfg : PostgresDatasourceConfiguration) : M unit :=
  match endpoint cfg with
  | None => mret ()
  | Some _ =>
      client_on client "error";;
      client_on client "end";;
      client_on client "notification";;
      client_on client "notice"
  end.

(** The checks of the configuration, then [new Client], the listeners and
    [connect] (the same statements in both revisions). *)
Definition connect_with (d : Driver)
    (datasourceConfiguration : PostgresDatasourceConfiguration)
    (connectionTimeoutMillis : Z) : M Client :=
  let endpoint0 := endpoint datasourceConfiguration in
  let auth0 := authentication datasourceConfiguration in
  match endpoint0 with
  | None => mthrow (IntegrationError "Endpoint not specified for Postgres step")
  | Some endpoint1 =>
    match auth0 with
    | None => mthrow (IntegrationError "Authentication not specified for Postgres step")
    | Some auth =>
      if negb (truthy_string (databaseName auth)) then
        mthrow (IntegrationError "Database not specified for Postgres step")
      else
        let ssl_config := ssl_config_of datasourceConfiguration in
        client ← new_Client {|
          cc_host := host endpoint1;
          cc_user := username auth;
          cc_password := password auth;
          cc_database := databaseName auth;
          cc_port := port endpoint1;
          cc_ssl := ssl_config;
          cc_connectionTimeoutMillis := connectionTimeoutMillis |};
        attachLoggerToClient client datasourceConfiguration;;
        client_connect d client;;
        mret client
    end
  end.

(** ** src/src/index.ts *)

Module Index.
Section Plugin.

(** [normalizeTableColumnNames] of [@superblocksteam/shared-backend]. *)
Variable normalizeTableColumnNames : list RawRow → list RawRow.

Variable d : Driver.

(** Modelled from the spec: [executeQuery] is inherited from
    [DatabasePlugin] ([@superblocksteam/shared-backend]), which is not in the
    repository; the statement handed over is run once and its rows or its
    failure are passed on. *)
Definition executeQuery {A} (fn : M A) : M A := fn.

(** Lines 117-163.  The decorators [CreateConnection] and
    [DestroyConnection] return the method they decorate, as the test file of
    the plugin defines them (index.test.ts, lines 18-23). *)
Definition createConnection
    (datasourceConfiguration : option PostgresDatasourceConfiguration)
    (connectionTimeoutMillis : Z) : M Client :=
  match datasourceConfiguration with
  | None => mthrow (IntegrationError "Datasource not found for Postgres step")
  | Some cfg => connect_with d cfg connectionTimeoutMillis
  end.

(** Lines 165-168. *)
Definition destroyConnection (client : Client) : M unit :=
  client_end d client.

(** Lines 31-58.  [query] is a string of length at least 1 where it is sent
    to the server. *)
Definition execute (props : PluginExecutionProps) : M ExecutionOutput :=
  client ← createConnection (datasourceConfiguration props) 30000;
  let query := body (actionConfiguration props) in
  let ret := new_ExecutionOutput in
  if isEmpty query then mret ret
  else
    let sql := default EmptyString query in
    rows ← try_catch_finally
              (executeQuery
                 (client_query d client sql (preparedStatementContext (context props))))
              (λ err, mthrow (IntegrationError ("Postgres query failed, " +:+ message err)))
              (if_client (Some client)
                 (λ client, catch_ignore (destroyConnection client)));
    mret {| output := Some (normalizeTableColumnNames rows) |}.

(** Lines 68-115. *)
Definition metadata
    (datasourceConfiguration : option PostgresDatasourceConfiguration)
    : M DatasourceMetadataDto :=
  client ← createConnection datasourceConfiguration 30000;
  try_catch_finally
    (tableResult ← executeQuery (client_query_table d client);
     let entities := Fold.entities tableResult in
     keysResult ← executeQuery (client_query_keys d client);
     let entities := Fold.add_keys entities keysResult in
     mret {| dbSchema := {| tables := entities |} |})
    (λ err, mthrow (IntegrationError ("Failed to connect to Postgres, " +:+ message err)))
    (if_client (Some client)
       (λ client, catch_ignore (destroyConnection client))).

(** Lines 194-210. *)
Definition test
    (datasourceConfiguration : option PostgresDatasourceConfiguration) : M unit :=
  set_client None;;
  try_catch_finally
    (client ← createConnection datasourceConfiguration TEST_CONNECTION_TIMEOUT;
     set_client (Some client);;
     executeQuery (client_query d client "SELECT NOW()" None);;
     mret ())
    (λ err, mthrow (IntegrationError ("Test Postgres connection failed, " +:+ message err)))
    (client ← get_client;
     if_client client (λ client, catch_ignore (destroyConnection client))).

(** Lines 60-62: [actionConfiguration?.body]. *)
Definition getRequest (actionConfiguration : option PostgresActionConfiguration)
    : option string :=
  actionConfiguration ≫= body.

(** Lines 64-66. *)
Definition dynamicProperties : list string := ["body"].

End Plugin.
End Index.

(** ** src/unnamed/part_000 *)

Module Part000.
Section Plugin.

Variable normalizeTableColumnNames : list RawRow → list RawRow.

Variable d : Driver.

(** Lines 122-168. *)
Definition createClient
    (datasourceConfiguration : option PostgresDatasourceConfiguration)
    (connectionTimeoutMillis : Z) : M Client :=
  match datasourceConfiguration with
  | None => mthrow (IntegrationError "Datasource not found for Postgres step")
  | Some cfg =>
      try_catch
        (connect_with d cfg connectionTimeoutMillis)
        (λ err, mthrow (IntegrationError ("Failed to connect to Postgres, " +:+ message err)))
  end.

(** Lines 45-67. *)
Definition execute (props : PluginExecutionProps) : M ExecutionOutput :=
  client ← createClient (datasourceConfiguration props) 30000;
  try_catch_finally
    (let query := body (actionConfiguration props) in
     let ret := new_ExecutionOutput in
     if isEmpty query then mret ret
     else
       let sql := default EmptyString query in
       rows ← client_query d client sql (preparedStatementContext (context props));
       mret {| output := Some (normalizeTableColumnNames rows) |})
    (λ err, mthrow (IntegrationError ("Postgres query failed, " +:+ message err)))
    (if_client (Some client) (λ client, client_end d client)).

(** Lines 77-120. *)
Definition metadata
    (datasourceConfiguration : option PostgresDatasourceConfiguration)
    : M DatasourceMetadataDto :=
  set_client None;;
  try_catch_finally
    (client ← createClient datasourceConfiguration 30000;
     set_client (Some client);;
     tableResult ← client_query_table d client;
     let entities := Fold.entities tableResult in
     keysResult ← client_query_keys d client;
     let entities := Fold.add_keys entities keysResult in
     mret {| dbSchema := {| tables := entities |} |})
    (λ err, mthrow (IntegrationError ("Failed to connect to Postgres, " +:+ message err)))
    (client ← get_client;
     if_client client (λ client, client_end d client)).

(** Lines 194-206. *)
Definition test
    (datasourceConfiguration : option PostgresDatasourceConfiguration) : M unit :=
  set_client None;;
  try_catch_finally
    (client ← createClient datasourceConfiguration TEST_CONNECTION_TIMEOUT;
     set_client (Some client);;
     client_query d client "SELECT NOW()" None;;
     mret ())
    (λ err, mthrow (IntegrationError ("Test Postgres connection failed, " +:+ message err)))
    (client ← get_client;
     if_client client (λ client, client_end d client)).

(** Lines 69-71: [actionConfiguration?.body]. *)
Definition getRequest (actionConfiguration : option PostgresActionConfiguration)
    : option string :=
  actionConfiguration ≫= body.

(** Lines 73-75. *)
Definition dynamicProperties : list string := ["body"].

End Plugin.
End Part000.

(** * Vocabulary of the statements *)

Module FoldSpec.
Import Fold.

(** The names of a sequence, each kept at its first appearance. *)
Fixpoint first_seen (l : list string) : list string :=
  match l with
  | [] => []
  | x :: l' => x :: filter (λ y, y ≠ x) (first_seen l')
  end.

(** The rows of one table, in stream order. *)
Definition rows_of (n : string) (rows : list AttributeRow) : list AttributeRow :=
  filter (λ r, table_name r = n) rows.

(** The descriptor built for the row that creates its table. *)
Definition first_column (r : AttributeRow) : Column :=
  mkColumn (attr_name r) (column_type r).

(** The casing rule: quoted unless the name is its own lowercase form. *)
Definition cased_name (n : string) : string :=
  if bool_decide (n = Str.toLowerCase n) then n else Str.quoted n.

(** The descriptor built for a row whose table exists already. *)
Definition later_column (r : AttributeRow) : Column :=
  mkColumn (cased_name (attr_name r)) (column_type r).

Definition columns_of (rs : list AttributeRow) : list Column :=
  match rs with
  | [] => []
  | r :: rs' => first_column r :: map later_column rs'
  end.

Definition table_of (rows : list AttributeRow) (n : string) : Table :=
  mkTable n TABLE (columns_of (rows_of n rows)) [].

(** What the reducer reads of a row. *)
Definition read_fields (r : AttributeRow) : string * string * string :=
  (attr_name r, column_type r, table_name r).

(** The keys a table collects from the constraint rows. *)
Definition keys_of (n : string) (ks : list KeyRow) : list Key :=
  map key_of (filter (λ k, self_table k = n) ks).

End FoldSpec.

(** The checks of [createConnection] / [createClient] pass. *)
Definition valid (cfg : PostgresDatasourceConfiguration) : Prop :=
  is_Some (endpoint cfg) ∧
  ∃ auth, authentication cfg = Some auth ∧ truthy_string (databaseName auth) = true.

(** The options handed to [new Client]. *)
Definition options_of (cfg : PostgresDatasourceConfiguration) (timeout : Z)
    : ClientConfig :=
  {| cc_host := endpoint cfg ≫= host;
     cc_user := authentication cfg ≫= username;
     cc_password := authentication cfg ≫= password;
     cc_database := authentication cfg ≫= databaseName;
     cc_port := endpoint cfg ≫= port;
     cc_ssl := ssl_config_of cfg;
     cc_connectionTimeoutMillis := timeout |}.

(** The calls made while a connection is opened. *)
Definition opening (cfg : PostgresDatasourceConfiguration) (timeout : Z)
    : list Event :=
  [NewClient (options_of cfg timeout);
   On "error"; On "end"; On "notification"; On "notice"; Connect].

Definition log (st : State) (evs : list Event) : State :=
  {| calls := calls st ++ evs; var_client := var_client st |}.

(** The prefixes of the messages. *)
Definition query_failed : string := "Postgres query failed, ".
Definition failed_to_connect : string := "Failed to connect to Postgres, ".
Definition test_failed : string := "Test Postgres connection failed, ".

(** A statement made of blanks only (space, tab, line feed, vertical tab,
    form feed, carriage return). *)
Definition is_blank (c : Ascii.ascii) : bool :=
  let n := Ascii.nat_of_ascii c in
  (n =? 32) || ((9 <=? n) && (n <=? 13)).

Fixpoint whitespace_only (s : string) : bool :=
  match s with
  | EmptyString => true
  | String c s' => is_blank c && whitespace_only s'
  end.

(** A catalog query fails with message [m]: the first one, or the second
    one after the first was answered. *)
Definition catalog_failure (d : Driver) (m : string) : Prop :=
  table_answer d = Fails m
  ∨ ∃ rows, table_answer d = Rows rows ∧ keys_answer d = Fails m.

(** The configuration fails a check of [createConnection] / [createClient];
    the second component is the message of the first check that fails. *)
Inductive rejected : option PostgresDatasourceConfiguration → string → Prop :=
| rejected_absent :
    rejected None "Datasource not found for Postgres step"
| rejected_endpoint cfg :
    endpoint cfg = None →
    rejected (Some cfg) "Endpoint not specified for Postgres step"
| rejected_authentication cfg ep :
    endpoint cfg = Some ep → authentication cfg = None →
    rejected (Some cfg) "Authentication not specified for Postgres step"
| rejected_database cfg ep auth :
    endpoint cfg = Some ep → authentication cfg = Some auth →
    truthy_string (databaseName auth) = false →
    rejected (Some cfg) "Database not specified for Postgres step".

(** The message with which [createClient] of part_000 leaves on a rejected
    configuration: the check on the configuration as a whole comes before
    the [try] statement, the other checks are inside it. *)
Definition createClient_message (cfgopt : option PostgresDatasourceConfiguration)
    (m : string) : string :=
  match cfgopt with
  | Some _ => failed_to_connect +:+ m
  | None => m
  end.

(** A trace with at most one client, at most one [connect], no [end]
    without a [connect], at most [n] statements and no statement without a
    [connect]. *)
Definition disciplined (n : nat) (tr : list Event) : Prop :=
  length (client_configs tr) ≤ 1
  ∧ opens tr ≤ 1
  ∧ closes tr ≤ opens tr
  ∧ length (statements tr) ≤ n
  ∧ (opens tr = 0 → statements tr = []).

(** The same server, with another answer to [end()]. *)
Definition with_end (d : Driver) (e : option string) : Driver :=
  {| connect_answer := connect_answer d;
     query_answer := query_answer d;
     table_answer := table_answer d;
     keys_answer := keys_answer d;
     end_answer := e |}.

(** Listeners registered, in order. *)
Definition listeners (tr : list Event) : list string :=
  omap (λ ev, match ev with On n => Some n | _ => None end) tr.

(** Numbers of column and key descriptors in a sequence of tables. *)
Definition total_columns (ents : list Table) : nat :=
  sum_list (map (λ t, length (columns t)) ents).

Definition total_keys (ents : list Table) : nat :=
  sum_list (map (λ t, length (keys t)) ents).

(** A string of ASCII characters: every code is below 128. *)
Fixpoint ascii_only (s : string) : bool :=
  match s with
  | EmptyString => true
  | String c s' => (Ascii.nat_of_ascii c <? 128) && ascii_only s'
  end.

(** An ASCII capital letter, and a string that holds one. *)
Definition is_upper (c : Ascii.ascii) : bool :=
  let n := Ascii.nat_of_ascii c in (65 <=? n) && (n <=? 90).

Fixpoint has_upper (s : string) : bool :=
  match s with
  | EmptyString => false
  | String c s' => is_upper c || has_upper s'
  end.

(** Concrete inputs used by the examples. *)
Module Sample.

Definition attr (n ty tbl sch : string) : AttributeRow :=
  {| attr_name := n; column_type := ty; default_expr := None;
     kind := "r"; table_name := tbl; schema_name := sch |}.

Definition rows : list AttributeRow :=
  [attr "Id" "int4" "orders" "public";
   attr "Total" "numeric" "orders" "public";
   attr "id" "int4" "users" "public";
   attr "note" "text" "orders" "audit"].

Definition constraint (n ty tbl : string) : KeyRow :=
  {| constraint_name := n; constraint_type := ty; self_schema := "public";
     self_table := tbl; self_columns := ["id"]; foreign_schema := None;
     foreign_table := None; foreign_columns := []; definition := "PRIMARY KEY (id)" |}.

Definition keyrows : list KeyRow :=
  [constraint "orders_pkey" "p" "orders";
   constraint "items_pkey" "p" "items";
   constraint "orders_user_fkey" "f" "orders";
   constraint "orders_pkey" "p" "orders"].

(** The table [orders] after the fold of [rows] and [keyrows]. *)
Definition orders_table : Table :=
  mkTable "orders" TABLE
    [mkColumn "Id" "int4"; mkColumn (Str.quoted "Total") "numeric";
     mkColumn "note" "text"]
    [mkKey "orders_pkey" primary_key; mkKey "orders_user_fkey" foreign_key;
     mkKey "orders_pkey" primary_key].

Definition cfg : PostgresDatasourceConfiguration :=
  {| endpoint := Some {| host := Some "db.example"; port := Some 5432%Z |};
     authentication := Some {| username := Some "app"; password := Some "secret";
                               databaseName := Some "shop" |};
     connection := Some {| useSsl := Some true; useSelfSignedSsl := Some true;
                           ca := Some "CA"; key := Some "KEY"; cert := None |} |}.

Definition props (sql : option string) : PluginExecutionProps :=
  {| context := {| preparedStatementContext := Some [JsNumber 7] |};
     datasourceConfiguration := Some cfg;
     actionConfiguration := {| body := sql |} |}.

(** A server that answers every statement. *)
Definition server : Driver :=
  {| connect_answer := None;
     query_answer := λ _ _, Rows [[("now", JsString "2024-01-01")]];
     table_answer := Rows rows;
     keys_answer := Rows keyrows;
     end_answer := None |}.

(** A server on which every statement fails. *)
Definition failing : Driver :=
  {| connect_answer := None;
     query_answer := λ _ _, Fails "syntax error";
     table_answer := Fails "permission denied";
     keys_answer := Fails "permission denied";
     end_answer := None |}.

(** A server that refuses the connection. *)
Definition unreachable : Driver :=
  {| connect_answer := Some "connect ECONNREFUSED";
     query_answer := λ _ _, Rows [];
     table_answer := Rows [];
     keys_answer := Rows [];
     end_answer := None |}.

(** A configuration without authentication. *)
Definition cfg_no_auth : PostgresDatasourceConfiguration :=
  {| endpoint := Some {| host := Some "db.example"; port := Some 5432%Z |};
     authentication := None;
     connection := None |}.

(** A server whose [end()] rejects. *)
Definition hanging : Driver := with_end server (Some "end failed").

(** The rows of [rows], the tables interleaved otherwise. *)
Definition rows_regrouped : list AttributeRow :=
  [attr "id" "int4" "users" "public";
   attr "Id" "int4" "orders" "public";
   attr "Total" "numeric" "orders" "public";
   attr "note" "text" "orders" "audit"].

End Sample.

(** * Theory of the fold *)

Module FoldTheory.
Import Fold FoldSpec.

Lemma elem_of_first_seen l x : x ∈ first_seen l ↔ x ∈ l.
Proof.
  induction l as [|y l IH]; simpl; [done|].
  rewrite !elem_of_cons, list_elem_of_filter, IH.
  destruct (decide (x = y)) as [->|Hne]; [split; intros _; by left|].
  split.
  - intros [?|[_ ?]]; [by left|by right].
  - intros [?|?]; [by left|by right].
Qed.

Lemma NoDup_first_seen l : NoDup (first_seen l).
Proof.
  induction l as [|y l IH]; simpl; [constructor|].
  constructor; [|by apply NoDup_filter].
  rewrite list_elem_of_filter. by intros [Hne _].
Qed.

Lemma first_seen_snoc l x :
  first_seen (l ++ [x]) = if decide (x ∈ l) then first_seen l else first_seen l ++ [x].
Proof.
  induction l as [|y l IH]; simpl; [done|].
  rewrite IH. destruct (decide (x ∈ l)) as [Hin|Hin].
  - rewrite decide_True by (by right). done.
  - rewrite filter_app. destruct (decide (x = y)) as [->|Hne].
    + rewrite decide_True by (by left).
      rewrite filter_cons_False by (by intros Hne). by rewrite app_nil_r.
    + rewrite decide_False by (rewrite elem_of_cons; by intros [?|?]).
      by rewrite filter_cons_True by done.
Qed.

Lemma length_first_seen l : length (first_seen l) = length (remove_dups l).
Proof.
  apply Permutation_length, NoDup_Permutation.
  - apply NoDup_first_seen.
  - apply NoDup_remove_dups.
  - intros x. by rewrite elem_of_first_seen, elem_of_remove_dups.
Qed.

Lemma rows_of_snoc n rows r :
  rows_of n (rows ++ [r]) =
  if decide (table_name r = n) then rows_of n rows ++ [r] else rows_of n rows.
Proof.
  unfold rows_of. rewrite filter_app. case_decide.
  - by rewrite filter_cons_True.
  - rewrite filter_cons_False by done. by rewrite app_nil_r.
Qed.

Lemma rows_of_nil n rows : n ∉ map table_name rows → rows_of n rows = [].
Proof.
  intros Hn. unfold rows_of. induction rows as [|r rows IH]; [done|].
  simpl in Hn. rewrite not_elem_of_cons in Hn. destruct Hn as [Hne Hn].
  rewrite filter_cons_False by done. auto.
Qed.

Lemma rows_of_not_nil n rows : n ∈ map table_name rows → rows_of n rows ≠ [].
Proof.
  intros Hn Hnil. apply list_elem_of_fmap in Hn as (r & -> & Hr).
  by eapply (filter_nil_not_elem_of _ _ r) in Hnil.
Qed.

Lemma columns_of_snoc rs r :
  rs ≠ [] → columns_of (rs ++ [r]) = columns_of rs ++ [later_column r].
Proof. destruct rs as [|r0 rs]; [done|]. intros _. simpl. by rewrite map_app. Qed.

Lemma later_column_eq r :
  later_column r =
  mkColumn (if negb (bool_decide (attr_name r = Str.toLowerCase (attr_name r)))
            then Str.quoted (attr_name r) else attr_name r) (column_type r).
Proof. unfold later_column, cased_name. by case_bool_decide. Qed.

(** The fold computes, for each name in first-appearance order, the table
    made of the rows that carry the name. *)
Lemma entities_spec rows :
  entities rows = map (table_of rows) (first_seen (map table_name rows)).
Proof.
  induction rows as [|r rows IH] using rev_ind; [done|].
  unfold entities in *. rewrite fold_left_app. simpl. rewrite IH. clear IH.
  rewrite map_app. simpl. rewrite first_seen_snoc.
  set (ns := first_seen (map table_name rows)).
  set (n := table_name r).
  assert (Hother : ∀ m, m ≠ n → table_of (rows ++ [r]) m = table_of rows m).
  { intros m Hm. unfold table_of. rewrite rows_of_snoc. by rewrite decide_False. }
  unfold reducer. fold n. change (map (table_of rows) ns) with (table_of rows <$> ns).
  rewrite list_find_fmap.
  destruct (decide (n ∈ map table_name rows)) as [Hin|Hin].
  - assert (Hns : n ∈ ns) by (by apply elem_of_first_seen).
    destruct (list_find_elem_of (λ m, m = n) ns n Hns eq_refl) as [[i m] Hfind].
    rewrite (list_find_ext _ (λ m, m = n)) by done. rewrite Hfind. simpl.
    apply list_find_Some in Hfind as (Hi & -> & _).
    rewrite <- later_column_eq.
    apply list_eq. intros j. change (map ?f ?l) with (f <$> l).
    destruct (decide (j = i)) as [->|Hji].
    + rewrite list_lookup_insert_eq
        by (rewrite length_fmap; eauto using lookup_lt_Some).
      rewrite list_lookup_fmap, Hi. simpl. f_equal.
      unfold table_of, set_columns. simpl. f_equal.
      rewrite rows_of_snoc, decide_True by done.
      by rewrite columns_of_snoc by (by apply rows_of_not_nil).
    + rewrite list_lookup_insert_ne by done.
      rewrite !list_lookup_fmap. destruct (ns !! j) as [m|] eqn:Hj; [|done].
      simpl. f_equal. symmetry. apply Hother. intros ->.
      apply Hji. eapply NoDup_lookup; eauto. apply NoDup_first_seen.
  - rewrite (list_find_ext _ (λ m, m = n)) by done.
    assert (Hnone : list_find (λ m, m = n) ns = None).
    { apply list_find_None, Forall_forall. intros m Hm ->.
      apply Hin. by apply elem_of_first_seen. }
    rewrite Hnone. simpl. rewrite map_app. simpl. f_equal.
    + apply map_ext_in. intros m Hm. symmetry. apply Hother. intros ->.
      apply Hin. apply elem_of_first_seen. by apply list_elem_of_In.
    + unfold table_of, new_Table, set_columns. simpl.
      rewrite rows_of_snoc, decide_True by done.
      by rewrite rows_of_nil.
Qed.

Lemma name_table_of rows n : name (table_of rows n) = n.
Proof. done. Qed.

Lemma names_entities rows :
  map name (entities rows) = first_seen (map table_name rows).
Proof.
  rewrite entities_spec, map_map. simpl. apply map_id.
Qed.

Lemma NoDup_names_entities rows : NoDup (map name (entities rows)).
Proof. rewrite names_entities. apply NoDup_first_seen. Qed.

Lemma elem_of_entities rows t :
  t ∈ entities rows → t = table_of rows (name t) ∧ name t ∈ map table_name rows.
Proof.
  rewrite entities_spec. intros (n & -> & Hn)%list_elem_of_fmap.
  split; [done|]. simpl. by apply elem_of_first_seen.
Qed.

(** Earlier in the first-appearance sequence means an earlier first
    occurrence in the sequence itself. *)
Lemma first_seen_lookup_lt l i j a b :
  i < j → first_seen l !! i = Some a → first_seen l !! j = Some b →
  ∃ ia ib, list_find (λ y, y = a) l = Some (ia, a)
         ∧ list_find (λ y, y = b) l = Some (ib, b) ∧ ia < ib.
Proof.
  revert i j a b. induction l as [|x l IH] using rev_ind; intros i j a b Hij Hi Hj.
  { done. }
  rewrite first_seen_snoc in Hi, Hj.
  destruct (decide (x ∈ l)) as [Hx|Hx].
  - destruct (IH i j a b Hij Hi Hj) as (ia & ib & Ha & Hb & Hab).
    exists ia, ib. split_and!; [by apply list_find_app_l..|done].
  - apply lookup_app_Some in Hj as [Hj|[Hlen Hj]].
    + rewrite lookup_app_l in Hi by (apply lookup_lt_Some in Hj; lia).
      destruct (IH i j a b Hij Hi Hj) as (ia & ib & Ha & Hb & Hab).
      exists ia, ib. split_and!; [by apply list_find_app_l..|done].
    + destruct (j - length (first_seen l)) as [|k] eqn:Hk; [|done].
      simpl in Hj. injection Hj as <-.
      rewrite lookup_app_l in Hi by lia.
      assert (Ha : a ∈ l).
      { apply elem_of_first_seen. eapply list_elem_of_lookup_2, Hi. }
      destruct (list_find_elem_of (λ y, y = a) l a Ha eq_refl) as [[ia a'] Hfa].
      pose proof Hfa as (Hia & -> & _)%list_find_Some.
      exists ia, (length l). split_and!.
      * by apply list_find_app_l.
      * apply list_find_app_Some. right. split_and!; [lia| |].
        -- apply list_find_None, Forall_forall. by intros y Hy ->.
        -- rewrite Nat.sub_diag. simpl. by rewrite decide_True.
      * by apply lookup_lt_Some in Hia.
Qed.

Lemma reducer_read_fields acc r r' :
  read_fields r = read_fields r' → reducer acc r = reducer acc r'.
Proof.
  unfold read_fields, reducer. intros [= Hn Hc Ht]. by rewrite Hn, Hc, Ht.
Qed.

Lemma fold_reducer_read_fields rows rows' acc :
  map read_fields rows = map read_fields rows' →
  fold_left reducer rows acc = fold_left reducer rows' acc.
Proof.
  revert rows' acc. induction rows as [|r rows IH]; intros [|r' rows'] acc Heq;
    try done.
  simpl in Heq.
  assert (Hr : read_fields r = read_fields r') by congruence.
  assert (Hrows : map read_fields rows = map read_fields rows') by congruence.
  simpl. rewrite (reducer_read_fields acc r r' Hr). by apply IH.
Qed.

(** ** Keys *)

Lemma add_key_absent ents key :
  self_table key ∉ map name ents → add_key ents key = ents.
Proof.
  intros Hn. unfold add_key.
  destruct (list_find _ ents) as [[i t]|] eqn:Hf; [|done].
  apply list_find_Some in Hf as (Hi & Hname & _).
  exfalso. apply Hn. rewrite <- Hname.
  apply list_elem_of_fmap. exists t. split; [done|].
  by eapply list_elem_of_lookup_2.
Qed.

Lemma add_key_present ents key :
  self_table key ∈ map name ents →
  ∃ i table, list_find (λ e, name e = self_table key) ents = Some (i, table)
    ∧ add_key ents key = <[i := set_keys table (keys table ++ [key_of key])]> ents.
Proof.
  intros (t & Hname & Ht)%list_elem_of_fmap.
  destruct (list_find_elem_of (λ e, name e = self_table key) ents t Ht)
    as [[i table] Hf]; [done|].
  exists i, table. split; [done|]. unfold add_key. by rewrite Hf.
Qed.

Lemma names_add_key ents key : map name (add_key ents key) = map name ents.
Proof.
  unfold add_key. destruct (list_find _ ents) as [[i t]|] eqn:Hf; [|done].
  apply list_find_Some in Hf as (Hi & _ & _).
  change (map name ?l) with (name <$> l).
  rewrite list_fmap_insert. simpl. apply list_insert_id.
  by rewrite list_lookup_fmap, Hi.
Qed.

Lemma add_key_map ents key :
  NoDup (map name ents) →
  add_key ents key =
  map (λ t, if decide (name t = self_table key)
            then set_keys t (keys t ++ [key_of key]) else t) ents.
Proof.
  intros Hnd. unfold add_key.
  destruct (list_find _ ents) as [[i t]|] eqn:Hf.
  - apply list_find_Some in Hf as (Hi & Hname & _).
    apply list_eq. intros j. change (map ?f ?l) with (f <$> l).
    rewrite list_lookup_fmap. destruct (decide (j = i)) as [->|Hji].
    + rewrite list_lookup_insert_eq by eauto using lookup_lt_Some.
      rewrite Hi. simpl. by rewrite decide_True.
    + rewrite list_lookup_insert_ne by done.
      destruct (ents !! j) as [t'|] eqn:Hj; [|done]. simpl.
      rewrite decide_False; [done|]. intros Hname'. apply Hji.
      eapply (NoDup_lookup (map name ents) j i (self_table key)); [done|..];
        change (map name ents) with (name <$> ents);
        rewrite list_lookup_fmap; [by rewrite Hj; simpl; f_equal
                                  |by rewrite Hi; simpl; f_equal].
  - apply list_find_None in Hf. rewrite Forall_forall in Hf.
    rewrite <- (map_id ents) at 1. apply map_ext_in. intros t Ht.
    rewrite decide_False; [done|]. apply Hf. by apply list_elem_of_In.
Qed.

Lemma add_keys_map ks : ∀ ents,
  NoDup (map name ents) →
  add_keys ents ks = map (λ t, set_keys t (keys t ++ keys_of (name t) ks)) ents.
Proof.
  unfold add_keys. induction ks as [|k ks IH]; intros ents Hnd; simpl.
  - rewrite <- (map_id ents) at 1. apply map_ext. intros [n ty cs kk].
    unfold set_keys, keys_of. simpl. by rewrite app_nil_r.
  - rewrite IH by (by rewrite names_add_key).
    rewrite add_key_map by done. rewrite map_map. apply map_ext. intros t.
    unfold keys_of. destruct (decide (name t = self_table k)) as [Heq|Hne].
    + rewrite filter_cons_True by done. unfold set_keys. simpl.
      by rewrite <- app_assoc.
    + by rewrite filter_cons_False by done.
Qed.

Lemma schema_tables_spec rows ks :
  schema_tables rows ks =
  map (λ n, mkTable n TABLE (columns_of (rows_of n rows)) (keys_of n ks))
      (first_seen (map table_name rows)).
Proof.
  unfold schema_tables. rewrite add_keys_map by apply NoDup_names_entities.
  rewrite entities_spec, map_map. by apply map_ext.
Qed.

Lemma keys_of_present rows ks n :
  n ∈ map table_name rows →
  keys_of n (filter (λ k, self_table k ∈ map table_name rows) ks) = keys_of n ks.
Proof.
  intros Hn. unfold keys_of. f_equal.
  induction ks as [|k ks IH]; [done|].
  destruct (decide (self_table k = n)) as [Heq|Hne].
  - rewrite (filter_cons_True _ k ks) by (by rewrite Heq).
    rewrite !filter_cons_True by done. by rewrite IH.
  - rewrite (filter_cons_False (λ k, self_table k = n) k ks) by done.
    rewrite <- IH. destruct (decide (self_table k ∈ map table_name rows)).
    + rewrite (filter_cons_True _ k ks) by done. by rewrite filter_cons_False.
    + by rewrite (filter_cons_False _ k ks).
Qed.

Lemma schema_tables_lookup rows ks i t :
  schema_tables rows ks !! i = Some t →
  name t ∈ map table_name rows
  ∧ columns t = columns_of (rows_of (name t) rows)
  ∧ keys t = keys_of (name t) ks.
Proof.
  rewrite schema_tables_spec. change (map ?f ?l) with (f <$> l) at 1.
  rewrite list_lookup_fmap.
  destruct (first_seen (map table_name rows) !! i) as [n|] eqn:Hn; [|done].
  simpl. intros [= <-]. simpl. split; [|done].
  apply elem_of_first_seen. by eapply list_elem_of_lookup_2.
Qed.

Lemma entities_lookup rows i t :
  entities rows !! i = Some t →
  name t ∈ map table_name rows
  ∧ columns t = columns_of (rows_of (name t) rows)
  ∧ keys t = [].
Proof.
  rewrite entities_spec. change (map ?f ?l) with (f <$> l) at 1.
  rewrite list_lookup_fmap.
  destruct (first_seen (map table_name rows) !! i) as [n|] eqn:Hn; [|done].
  simpl. intros [= <-]. simpl. split; [|done].
  apply elem_of_first_seen. by eapply list_elem_of_lookup_2.
Qed.

Lemma col_type_columns_of rs : map col_type (columns_of rs) = map column_type rs.
Proof. destruct rs as [|r rs]; [done|]. simpl. f_equal. by rewrite map_map. Qed.

(** The casing rule is applied to every column but the first of a table. *)
Lemma first_column_is_raw rows i t :
  entities rows !! i = Some t →
  ∃ r rs, rows_of (name t) rows = r :: rs
        ∧ columns t = mkColumn (attr_name r) (column_type r) :: map later_column rs.
Proof.
  intros (Hn & Hc & _)%entities_lookup.
  apply rows_of_not_nil in Hn.
  destruct (rows_of (name t) rows) as [|r rs] eqn:Hrows; [done|].
  by exists r, rs.
Qed.

Lemma cased_name_lower n : n = Str.toLowerCase n → cased_name n = n.
Proof. intros Hn. unfold cased_name. by rewrite bool_decide_eq_true_2. Qed.

Lemma cased_name_cased n : n ≠ Str.toLowerCase n → cased_name n = Str.quoted n.
Proof. intros Hn. unfold cased_name. by rewrite bool_decide_eq_false_2. Qed.

End FoldTheory.

(** * Theory of the connection life cycle *)

(** Unfolding of the monad operations and of the driver calls. *)
Ltac run_calls :=
  unfold try_catch_finally, try_finally, try_catch, if_client, catch_ignore, new_Client, client_on, client_connect,
    client_query, client_query_table, client_query_keys, client_end, answer,
    set_client, get_client, emit, mbind, M_bind, mret, M_ret, mthrow, M_throw;
  simpl.

Section Lifecycle.

Variable d : Driver.

Lemma connect_with_valid cfg timeout st :
  valid cfg →
  connect_with d cfg timeout st =
  (match connect_answer d with
   | None => Returned (mkClient (options_of cfg timeout))
   | Some m => Thrown (DriverError m)
   end, log st (opening cfg timeout)).
Proof.
  intros [[ep Hep] (auth & Hauth & Hdb)].
  unfold connect_with, opening, log, attachLoggerToClient, options_of.
  rewrite Hep, Hauth, Hdb. run_calls.
  rewrite <- ?app_assoc. simpl.
  by destruct (connect_answer d).
Qed.

Lemma connect_with_invalid cfg timeout st :
  ¬ valid cfg →
  ∃ m, connect_with d cfg timeout st = (Thrown (IntegrationError m), st).
Proof.
  intros Hnv. unfold connect_with.
  destruct (endpoint cfg) as [ep|] eqn:Hep; [|by eexists].
  destruct (authentication cfg) as [auth|] eqn:Hauth; [|by eexists].
  destruct (truthy_string (databaseName auth)) eqn:Hdb; [|by eexists].
  destruct Hnv. split; [by eexists|]. by exists auth.
Qed.

(** *** index.ts *)

Lemma Index_execute_run norm props cfg :
  datasourceConfiguration props = Some cfg → valid cfg →
  run (Index.execute norm d props) =
  match connect_answer d with
  | Some m => (Thrown (DriverError m), log initial (opening cfg 30000))
  | None =>
      let query := body (actionConfiguration props) in
      let values := preparedStatementContext (context props) in
      if isEmpty query then
        (Returned new_ExecutionOutput, log initial (opening cfg 30000))
      else
        let sql := default EmptyString query in
        (match query_answer d sql values with
         | Rows rows => Returned {| output := Some (norm rows) |}
         | Fails m => Thrown (IntegrationError (query_failed +:+ m))
         end,
         log initial (opening cfg 30000 ++ [Query sql values; End]))
  end.
Proof.
  intros Hcfg Hv. unfold run, Index.execute, Index.createConnection.
  rewrite Hcfg. unfold mbind at 1, M_bind at 1.
  rewrite connect_with_valid by done.
  destruct (connect_answer d) as [m|]; [done|].
  destruct (isEmpty _); [done|].
  unfold Index.executeQuery, Index.destroyConnection, log. run_calls.
  rewrite <- ?app_assoc. simpl.
  by destruct (query_answer d _ _), (end_answer d).
Qed.

Lemma Index_metadata_run cfg :
  valid cfg →
  run (Index.metadata d (Some cfg)) =
  match connect_answer d with
  | Some m => (Thrown (DriverError m), log initial (opening cfg 30000))
  | None =>
      match table_answer d with
      | Fails m =>
          (Thrown (IntegrationError (failed_to_connect +:+ m)),
           log initial (opening cfg 30000 ++ [Query TableQuery None; End]))
      | Rows rows =>
          (match keys_answer d with
           | Fails m => Thrown (IntegrationError (failed_to_connect +:+ m))
           | Rows ks =>
               Returned {| dbSchema := {| tables := Fold.schema_tables rows ks |} |}
           end,
           log initial (opening cfg 30000 ++
                        [Query TableQuery None; Query KeysQuery None; End]))
      end
  end.
Proof.
  intros Hv. unfold run, Index.metadata, Index.createConnection.
  unfold mbind at 1, M_bind at 1.
  rewrite connect_with_valid by done.
  destruct (connect_answer d) as [m|]; [done|].
  unfold Index.executeQuery, Index.destroyConnection, log. run_calls.
  destruct (table_answer d) as [rows|m]; simpl.
  - destruct (keys_answer d) as [ks|m]; simpl;
      rewrite <- ?app_assoc; simpl; by destruct (end_answer d).
  - rewrite <- ?app_assoc. simpl. by destruct (end_answer d).
Qed.

Lemma Index_test_run cfg :
  valid cfg →
  run (Index.test d (Some cfg)) =
  match connect_answer d with
  | Some m =>
      (Thrown (IntegrationError (test_failed +:+ m)),
       log initial (opening cfg TEST_CONNECTION_TIMEOUT))
  | None =>
      (match query_answer d "SELECT NOW()" None with
       | Rows _ => Returned ()
       | Fails m => Thrown (IntegrationError (test_failed +:+ m))
       end,
       {| calls := opening cfg TEST_CONNECTION_TIMEOUT ++
                   [Query "SELECT NOW()" None; End];
          var_client := Some (mkClient (options_of cfg TEST_CONNECTION_TIMEOUT)) |})
  end.
Proof.
  intros Hv. unfold run, Index.test, Index.createConnection.
  unfold try_catch_finally, try_finally, try_catch, mbind, M_bind, set_client. simpl.
  rewrite connect_with_valid by done.
  destruct (connect_answer d) as [m|]; [done|].
  unfold Index.executeQuery, Index.destroyConnection, log. run_calls.
  by destruct (query_answer d _ _), (end_answer d).
Qed.

(** *** part_000 *)

#[local] Arguments Part000.createClient : simpl never.

Lemma Part000_createClient_valid cfg timeout st :
  valid cfg →
  Part000.createClient d (Some cfg) timeout st =
  (match connect_answer d with
   | None => Returned (mkClient (options_of cfg timeout))
   | Some m => Thrown (IntegrationError (failed_to_connect +:+ m))
   end, log st (opening cfg timeout)).
Proof.
  intros Hv. unfold Part000.createClient, try_catch.
  rewrite connect_with_valid by done.
  by destruct (connect_answer d).
Qed.

Lemma Part000_execute_run norm props cfg :
  datasourceConfiguration props = Some cfg → valid cfg →
  run (Part000.execute norm d props) =
  match connect_answer d with
  | Some m =>
      (Thrown (IntegrationError (failed_to_connect +:+ m)),
       log initial (opening cfg 30000))
  | None =>
      let query := body (actionConfiguration props) in
      let values := preparedStatementContext (context props) in
      let closed (o : Outcome ExecutionOutput) :=
        match end_answer d with
        | Some m => Thrown (DriverError m)
        | None => o
        end in
      if isEmpty query then
        (closed (Returned new_ExecutionOutput), log initial (opening cfg 30000 ++ [End]))
      else
        let sql := default EmptyString query in
        (closed (match query_answer d sql values with
                 | Rows rows => Returned {| output := Some (norm rows) |}
                 | Fails m => Thrown (IntegrationError (query_failed +:+ m))
                 end),
         log initial (opening cfg 30000 ++ [Query sql values; End]))
  end.
Proof.
  intros Hcfg Hv. unfold run, Part000.execute.
  rewrite Hcfg. unfold mbind at 1, M_bind at 1.
  rewrite Part000_createClient_valid by done.
  destruct (connect_answer d) as [m|]; [done|].
  unfold log. run_calls.
  destruct (isEmpty _); simpl.
  - by destruct (end_answer d).
  - rewrite <- ?app_assoc. simpl.
    by destruct (query_answer d _ _), (end_answer d).
Qed.

Lemma Part000_metadata_run cfg :
  valid cfg →
  run (Part000.metadata d (Some cfg)) =
  match connect_answer d with
  | Some m =>
      (Thrown (IntegrationError (failed_to_connect +:+ failed_to_connect +:+ m)),
       log initial (opening cfg 30000))
  | None =>
      let closed (o : Outcome DatasourceMetadataDto) :=
        match end_answer d with
        | Some m => Thrown (DriverError m)
        | None => o
        end in
      let client := Some (mkClient (options_of cfg 30000)) in
      match table_answer d with
      | Fails m =>
          (closed (Thrown (IntegrationError (failed_to_connect +:+ m))),
           {| calls := opening cfg 30000 ++ [Query TableQuery None; End];
              var_client := client |})
      | Rows rows =>
          (closed (match keys_answer d with
                   | Fails m => Thrown (IntegrationError (failed_to_connect +:+ m))
                   | Rows ks =>
                       Returned {| dbSchema := {| tables := Fold.schema_tables rows ks |} |}
                   end),
           {| calls := opening cfg 30000 ++
                       [Query TableQuery None; Query KeysQuery None; End];
              var_client := client |})
      end
  end.
Proof.
  intros Hv. unfold run, Part000.metadata.
  unfold try_catch_finally, try_finally, try_catch, mbind, M_bind, set_client. simpl.
  rewrite Part000_createClient_valid by done.
  destruct (connect_answer d) as [m|]; [done|].
  unfold log. run_calls.
  destruct (table_answer d) as [rows|m]; simpl.
  - by destruct (keys_answer d), (end_answer d).
  - by destruct (end_answer d).
Qed.

Lemma Part000_test_run cfg :
  valid cfg →
  run (Part000.test d (Some cfg)) =
  match connect_answer d with
  | Some m =>
      (Thrown (IntegrationError (test_failed +:+ failed_to_connect +:+ m)),
       log initial (opening cfg TEST_CONNECTION_TIMEOUT))
  | None =>
      (match end_answer d with
       | Some m => Thrown (DriverError m)
       | None =>
           match query_answer d "SELECT NOW()" None with
           | Rows _ => Returned ()
           | Fails m => Thrown (IntegrationError (test_failed +:+ m))
           end
       end,
       {| calls := opening cfg TEST_CONNECTION_TIMEOUT ++
                   [Query "SELECT NOW()" None; End];
          var_client := Some (mkClient (options_of cfg TEST_CONNECTION_TIMEOUT)) |})
  end.
Proof.
  intros Hv. unfold run, Part000.test.
  unfold try_catch_finally, try_finally, try_catch, mbind, M_bind, set_client. simpl.
  rewrite Part000_createClient_valid by done.
  destruct (connect_answer d) as [m|]; [done|].
  unfold log. run_calls.
  by destruct (query_answer d _ _), (end_answer d).
Qed.

End Lifecycle.

Lemma statements_opening cfg timeout : statements (opening cfg timeout) = [].
Proof. done. Qed.

Lemma opens_opening cfg timeout : opens (opening cfg timeout) = 1.
Proof. done. Qed.

Lemma closes_opening cfg timeout : closes (opening cfg timeout) = 0.
Proof. done. Qed.

Lemma client_configs_opening cfg timeout :
  client_configs (opening cfg timeout) = [options_of cfg timeout].
Proof. done. Qed.

Lemma valid_Sample_cfg : valid Sample.cfg.
Proof. split; [by eexists|]. by eexists. Qed.

(** The option set for TLS. *)
Lemma ssl_config_of_off cfg :
  truthy_bool (connection cfg ≫= useSsl) = false → ssl_config_of cfg = None.
Proof. intros H. unfold ssl_config_of. by rewrite H. Qed.

Lemma ssl_config_of_plain cfg :
  truthy_bool (connection cfg ≫= useSsl) = true →
  truthy_bool (connection cfg ≫= useSelfSignedSsl) = false →
  ssl_config_of cfg = Some {[ "rejectUnauthorized" := JsBool false ]}.
Proof. intros H1 H2. unfold ssl_config_of. by rewrite H1, H2. Qed.

Lemma ssl_config_of_self_signed cfg :
  truthy_bool (connection cfg ≫= useSsl) = true →
  truthy_bool (connection cfg ≫= useSelfSignedSsl) = true →
  ∃ m : gmap string JsValue,
    ssl_config_of cfg = Some m
    ∧ m !! "rejectUnauthorized" = Some (JsBool false)
    ∧ m !! "ca" = Some (js_of_string (connection cfg ≫= ca))
    ∧ m !! "key" = Some (js_of_string (connection cfg ≫= key))
    ∧ m !! "cert" = Some (js_of_string (connection cfg ≫= cert)).
Proof.
  intros H1 H2. unfold ssl_config_of. rewrite H1, H2.
  eexists. split; [done|]. by simplify_map_eq.
Qed.

(** On the empty statement the revision index.ts returns before its [try]
    statement is entered: the client is not ended. *)
Lemma Index_execute_empty_trace norm d props cfg :
  datasourceConfiguration props = Some cfg → valid cfg →
  connect_answer d = None →
  isEmpty (body (actionConfiguration props)) = true →
  trace (Index.execute norm d props) = opening cfg 30000.
Proof.
  intros Hcfg Hv Hc He. unfold trace.
  rewrite (Index_execute_run d norm props cfg) by done.
  rewrite Hc. cbv zeta. by rewrite He.
Qed.

Lemma Index_execute_empty_closes norm d props cfg :
  datasourceConfiguration props = Some cfg → valid cfg →
  connect_answer d = None →
  isEmpty (body (actionConfiguration props)) = true →
  opens (trace (Index.execute norm d props)) = 1
  ∧ closes (trace (Index.execute norm d props)) = 0.
Proof.
  intros Hcfg Hv Hc He.
  by rewrite (Index_execute_empty_trace norm d props cfg).
Qed.

(** When the connection is refused, [test] has no client to end. *)
Lemma test_refused_trace d cfg m :
  valid cfg → connect_answer d = Some m →
  trace (Index.test d (Some cfg)) = opening cfg TEST_CONNECTION_TIMEOUT
  ∧ trace (Part000.test d (Some cfg)) = opening cfg TEST_CONNECTION_TIMEOUT.
Proof.
  intros Hv Hc. unfold trace.
  rewrite Index_test_run, Part000_test_run by done. by rewrite Hc.
Qed.

(** In part_000 a failure of [end()] replaces the pending failure. *)
Lemma Part000_execute_end_failure norm d props cfg sql m m' :
  datasourceConfiguration props = Some cfg → valid cfg →
  connect_answer d = None →
  body (actionConfiguration props) = Some sql → sql ≠ EmptyString →
  query_answer d sql (preparedStatementContext (context props)) = Fails m →
  end_answer d = Some m' →
  outcome (Part000.execute norm d props) = Thrown (DriverError m').
Proof.
  intros Hcfg Hv Hc Hb Hne Hq He. unfold outcome.
  rewrite (Part000_execute_run d norm props cfg) by done.
  rewrite Hc, Hb. simpl.
  rewrite bool_decide_eq_false_2 by (by destruct sql).
  by rewrite He.
Qed.

(** * The statements of the specification *)

Section Claims.
Import Fold FoldSpec FoldTheory.

(** C2 (the code departs from it).  The claim: a column name that is not
    entirely lowercase is stored wrapped in double quotes, also for the first
    column of its table.  On the row [Id] of a table seen for the first time
    the fold stores the name as it is: the casing rule is applied only in the
    branch that extends an existing table. *)
Theorem C2_first_column_stored_unquoted :
  let r := Sample.attr "Id" "int4" "orders" "public" in
  attr_name r ≠ Str.toLowerCase (attr_name r)
  ∧ entities [r] = [mkTable "orders" TABLE [mkColumn "Id" "int4"] []]
  ∧ cased_name (attr_name r) = Str.quoted "Id"
  ∧ Str.quoted "Id" ≠ "Id".
Proof. by split_and!. Qed.

(** C4.  Folding the rows yields one table per distinct table name; the
    tables come in the order in which their names first appear in the
    stream, and the columns of a table come from the rows of that table in
    stream order. *)
Theorem C4_fold_groups_by_table (rows : list AttributeRow) :
  length (entities rows) = length (remove_dups (map table_name rows))
  ∧ map name (entities rows) = first_seen (map table_name rows)
  ∧ (∀ i t, entities rows !! i = Some t →
       columns t = columns_of (rows_of (name t) rows)
       ∧ map col_type (columns t) = map column_type (rows_of (name t) rows))
  ∧ (∀ i j ti tj, i < j →
       entities rows !! i = Some ti → entities rows !! j = Some tj →
       ∃ a b ra rb,
         list_find (λ r, table_name r = name ti) rows = Some (a, ra)
         ∧ list_find (λ r, table_name r = name tj) rows = Some (b, rb)
         ∧ a < b).
Proof.
  split_and!.
  - rewrite <- length_first_seen, <- names_entities. by rewrite length_map.
  - apply names_entities.
  - intros i t (_ & Hc & _)%entities_lookup. split; [done|].
    rewrite Hc. apply col_type_columns_of.
  - intros i j ti tj Hij Hi Hj.
    assert (Hni : first_seen (map table_name rows) !! i = Some (name ti)).
    { rewrite <- names_entities. change (map name ?l) with (name <$> l).
      by rewrite list_lookup_fmap, Hi. }
    assert (Hnj : first_seen (map table_name rows) !! j = Some (name tj)).
    { rewrite <- names_entities. change (map name ?l) with (name <$> l).
      by rewrite list_lookup_fmap, Hj. }
    destruct (first_seen_lookup_lt _ _ _ _ _ Hij Hni Hnj) as (a & b & Ha & Hb & Hab).
    change (map table_name rows) with (table_name <$> rows) in Ha, Hb.
    rewrite list_find_fmap in Ha, Hb.
    destruct (list_find _ rows) as [[a' ra]|] eqn:Hfa in Ha; [|done].
    destruct (list_find _ rows) as [[b' rb]|] eqn:Hfb in Hb; [|done].
    simpl in Ha, Hb. injection Ha as -> _. injection Hb as -> _.
    exists a, b, ra, rb. split_and!; [|  |done].
    + rewrite <- Hfa. by apply list_find_ext.
    + rewrite <- Hfb. by apply list_find_ext.
Qed.

Lemma C4_witness :
  map name (entities Sample.rows) = ["orders"; "users"]
  ∧ map col_type (columns (mkTable "orders" TABLE
        [mkColumn "Id" "int4"; mkColumn (Str.quoted "Total") "numeric";
         mkColumn "note" "text"] [])) = ["int4"; "numeric"; "text"]
  ∧ ∃ a b ra rb,
      list_find (λ r, table_name r = "orders") Sample.rows = Some (a, ra)
      ∧ list_find (λ r, table_name r = "users") Sample.rows = Some (b, rb)
      ∧ a < b.
Proof.
  destruct (C4_fold_groups_by_table Sample.rows) as (_ & Hnames & Hcols & Hord).
  split; [exact Hnames|]. split.
  - destruct (Hcols 0 _ eq_refl) as [_ Htypes]. exact Htypes.
  - exact (Hord 0 1 _ _ ltac:(lia) eq_refl eq_refl).
Defined.



(** C6.  A constraint row naming a table that is not in the folded result
    changes nothing and raises nothing; the rows of a table are appended to
    its keys in scan order, a repeated row being appended again. *)
Theorem C6_keys_attached (rows : list AttributeRow) (ks : list KeyRow) :
  (∀ ents k, self_table k ∉ map name ents → add_key ents k = ents)
  ∧ schema_tables rows ks =
    schema_tables rows (filter (λ k, self_table k ∈ map table_name rows) ks)
  ∧ (∀ i t, schema_tables rows ks !! i = Some t →
       keys t = map key_of (filter (λ k, self_table k = name t) ks))
  ∧ (∀ i t k, schema_tables rows ks !! i = Some t → self_table k = name t →
       ∃ t', schema_tables rows (ks ++ [k]) !! i = Some t'
           ∧ name t' = name t ∧ keys t' = keys t ++ [key_of k])
  ∧ (∀ d cfg, valid cfg → connect_answer d = None →
       table_answer d = Rows rows → keys_answer d = Rows ks →
       outcome (Index.metadata d (Some cfg)) =
         Returned {| dbSchema := {| tables := schema_tables rows ks |} |}
       ∧ (end_answer d = None →
          outcome (Part000.metadata d (Some cfg)) =
            Returned {| dbSchema := {| tables := schema_tables rows ks |} |})).
Proof.
  split_and!.
  - apply add_key_absent.
  - rewrite !schema_tables_spec. apply map_ext_in.
    intros n Hn%list_elem_of_In. apply (proj1 (elem_of_first_seen _ _)) in Hn.
    by rewrite keys_of_present.
  - by intros i t (_ & _ & Hk)%schema_tables_lookup.
  - intros i t k Hi Hname.
    pose proof Hi as (_ & _ & Hk)%schema_tables_lookup.
    rewrite schema_tables_spec in Hi |- *.
    change (map ?f ?l) with (f <$> l) in Hi |- *.
    rewrite list_lookup_fmap in Hi |- *.
    destruct (first_seen (map table_name rows) !! i) as [n|]; [|done].
    simpl in Hi |- *. injection Hi as <-. simpl in *.
    eexists. split; [done|]. simpl. split; [done|].
    unfold keys_of. rewrite filter_app, map_app.
    by rewrite filter_cons_True by done.
  - intros d cfg Hv Hc Ht Hk. unfold outcome.
    rewrite Index_metadata_run, Part000_metadata_run by done.
    rewrite Hc, Ht, Hk. simpl. split; [done|]. by intros ->.
Qed.

Lemma C6_witness :
  add_key (entities Sample.rows) (Sample.constraint "items_pkey" "p" "items")
    = entities Sample.rows
  ∧ keys Sample.orders_table =
      map key_of (filter (λ k, self_table k = "orders") Sample.keyrows)
  ∧ outcome (Index.metadata Sample.server (Some Sample.cfg)) =
      Returned {| dbSchema :=
        {| tables := schema_tables Sample.rows Sample.keyrows |} |}.
Proof.
  destruct (C6_keys_attached Sample.rows Sample.keyrows)
    as (Hdrop & _ & Hkeys & _ & Hrun).
  split_and!.
  - apply Hdrop. intros Hin%list_elem_of_In. vm_compute in Hin.
    intuition discriminate.
  - exact (Hkeys 0 Sample.orders_table eq_refl).
  - apply Hrun; [|done..]. split; [by eexists|]. by eexists.
Defined.

(** C10.  The fold reads the column name, the type name and the table name
    of a row and nothing else; two rows that carry the same table name and
    different schema names end in one and the same table. *)
Theorem C10_schema_name_ignored (rows : list AttributeRow) :
  (∀ rows', map read_fields rows' = map read_fields rows →
            entities rows' = entities rows)
  ∧ (∀ r1 r2, r1 ∈ rows → r2 ∈ rows →
       table_name r1 = table_name r2 → schema_name r1 ≠ schema_name r2 →
       ∃ i t,
         entities rows !! i = Some t
         ∧ name t = table_name r1
         ∧ (∀ j t', entities rows !! j = Some t' → name t' = table_name r1 → j = i)
         ∧ columns t = columns_of (rows_of (table_name r1) rows)
         ∧ r1 ∈ rows_of (table_name r1) rows
         ∧ r2 ∈ rows_of (table_name r1) rows
         ∧ 2 ≤ length (columns t)).
Proof.
  split.
  - intros rows' Heq. unfold entities. by apply fold_reducer_read_fields.
  - intros r1 r2 H1 H2 Ht Hs.
    assert (Hn : table_name r1 ∈ first_seen (map table_name rows)).
    { apply elem_of_first_seen, list_elem_of_fmap. by exists r1. }
    apply list_elem_of_lookup in Hn as [i Hi].
    assert (Hti : entities rows !! i = Some (table_of rows (table_name r1))).
    { rewrite entities_spec. change (map ?f ?l) with (f <$> l).
      by rewrite list_lookup_fmap, Hi. }
    assert (Hr1 : r1 ∈ rows_of (table_name r1) rows)
      by (by apply list_elem_of_filter).
    assert (Hr2 : r2 ∈ rows_of (table_name r1) rows)
      by (by apply list_elem_of_filter).
    exists i, (table_of rows (table_name r1)). split_and!; try done.
    + intros j t' Hj Hname.
      eapply (NoDup_lookup (map name (entities rows)) j i (table_name r1)).
      * apply NoDup_names_entities.
      * change (map name ?l) with (name <$> l).
        by rewrite list_lookup_fmap, Hj; simpl; f_equal.
      * change (map name ?l) with (name <$> l).
        by rewrite list_lookup_fmap, Hti.
    + simpl. destruct (rows_of (table_name r1) rows) as [|a [|b l]].
      * by apply elem_of_nil in Hr1.
      * apply list_elem_of_singleton in Hr1, Hr2. congruence.
      * simpl. lia.
Qed.

Lemma C10_witness :
  ∃ i t,
    entities Sample.rows !! i = Some t
    ∧ name t = "orders"
    ∧ (∀ j t', entities Sample.rows !! j = Some t' → name t' = "orders" → j = i)
    ∧ columns t = columns_of (rows_of "orders" Sample.rows)
    ∧ Sample.attr "Id" "int4" "orders" "public" ∈ rows_of "orders" Sample.rows
    ∧ Sample.attr "note" "text" "orders" "audit" ∈ rows_of "orders" Sample.rows
    ∧ 2 ≤ length (columns t).
Proof.
  destruct (C10_schema_name_ignored Sample.rows) as [_ Hmerge].
  apply (Hmerge (Sample.attr "Id" "int4" "orders" "public")
                (Sample.attr "note" "text" "orders" "audit")).
  - apply list_elem_of_In. vm_compute. auto.
  - apply list_elem_of_In. vm_compute. auto 6.
  - reflexivity.
  - discriminate.
Defined.

(** C1, as the specification states it, fails: a statement made of blanks
    only is not empty for [isEmpty]; it is sent to the server like any other
    statement. *)
Lemma C1_whitespace_sql_is_run :
  whitespace_only " " = true
  ∧ statements (trace (Index.execute id Sample.server (Sample.props (Some " ")))) = [" "]
  ∧ statements (trace (Part000.execute id Sample.server (Sample.props (Some " ")))) = [" "].
Proof. by vm_compute. Qed.

(** C1, amended.  When the statement is absent or of length 0, [execute]
    opens the connection as on the normal path, sends no statement and
    returns a fresh result; the revision part_000 ends the client once.  A
    statement of length at least 1, blanks included, is sent to the
    server. *)
Theorem C1_empty_sql_short_circuits
    (norm : list RawRow → list RawRow) (d : Driver)
    (props : PluginExecutionProps) (cfg : PostgresDatasourceConfiguration) :
  datasourceConfiguration props = Some cfg → valid cfg →
  connect_answer d = None →
  (isEmpty (body (actionConfiguration props)) = true →
     outcome (Index.execute norm d props) = Returned new_ExecutionOutput
     ∧ (∃ rest, trace (Index.execute norm d props) = opening cfg 30000 ++ rest
              ∧ statements rest = [])
     ∧ statements (trace (Index.execute norm d props)) = []
     ∧ opens (trace (Index.execute norm d props)) = 1
     ∧ trace (Part000.execute norm d props) = opening cfg 30000 ++ [End]
     ∧ statements (trace (Part000.execute norm d props)) = []
     ∧ opens (trace (Part000.execute norm d props)) = 1
     ∧ closes (trace (Part000.execute norm d props)) = 1
     ∧ (end_answer d = None →
        outcome (Part000.execute norm d props) = Returned new_ExecutionOutput))
  ∧ (∀ sql, body (actionConfiguration props) = Some sql → sql ≠ EmptyString →
       let values := preparedStatementContext (context props) in
       trace (Index.execute norm d props) = opening cfg 30000 ++ [Query sql values; End]
       ∧ trace (Part000.execute norm d props) = opening cfg 30000 ++ [Query sql values; End]).
Proof.
  intros Hcfg Hv Hc. unfold outcome, trace.
  rewrite (Index_execute_run d norm props cfg),
          (Part000_execute_run d norm props cfg) by done.
  rewrite Hc. cbv zeta. split.
  - intros ->. simpl. split_and!; try done.
    + by exists [].
    + by intros ->.
  - intros sql Hb Hne. rewrite Hb. simpl.
    by rewrite bool_decide_eq_false_2 by (by destruct sql).
Qed.

Lemma C1_witness :
  outcome (Index.execute id Sample.server (Sample.props (Some EmptyString)))
    = Returned new_ExecutionOutput
  ∧ statements (trace (Index.execute id Sample.server (Sample.props (Some EmptyString)))) = []
  ∧ closes (trace (Part000.execute id Sample.server (Sample.props (Some EmptyString)))) = 1
  ∧ statements (trace (Index.execute id Sample.server (Sample.props (Some "  "))))
    = ["  "].
Proof.
  destruct (C1_empty_sql_short_circuits id Sample.server
              (Sample.props (Some EmptyString)) Sample.cfg
              eq_refl valid_Sample_cfg eq_refl) as [Hempty _].
  destruct (Hempty eq_refl) as (Ho & _ & Hs & _ & _ & _ & _ & Hc & _).
  destruct (C1_empty_sql_short_circuits id Sample.server
              (Sample.props (Some "  ")) Sample.cfg
              eq_refl valid_Sample_cfg eq_refl) as [_ Hrun].
  destruct (Hrun "  " eq_refl ltac:(discriminate)) as [Ht _].
  split; [exact Ho|]. split; [exact Hs|]. split; [exact Hc|].
  rewrite Ht. reflexivity.
Defined.

(** C3.  When the statement of the user fails, [execute] raises an
    [IntegrationError] that carries the message of the driver, and the
    client is ended once.  In the revision index.ts this holds whatever
    [end()] answers; in part_000 the error is the one stated when [end()]
    itself does not fail. *)
Theorem C3_statement_failure_is_wrapped
    (norm : list RawRow → list RawRow) (d : Driver)
    (props : PluginExecutionProps) (cfg : PostgresDatasourceConfiguration)
    (sql m : string) :
  datasourceConfiguration props = Some cfg → valid cfg →
  connect_answer d = None →
  body (actionConfiguration props) = Some sql → sql ≠ EmptyString →
  query_answer d sql (preparedStatementContext (context props)) = Fails m →
  outcome (Index.execute norm d props)
    = Thrown (IntegrationError ("Postgres query failed, " +:+ m))
  ∧ closes (trace (Index.execute norm d props)) = 1
  ∧ opens (trace (Index.execute norm d props)) = 1
  ∧ closes (trace (Part000.execute norm d props)) = 1
  ∧ opens (trace (Part000.execute norm d props)) = 1
  ∧ (end_answer d = None →
     outcome (Part000.execute norm d props)
       = Thrown (IntegrationError ("Postgres query failed, " +:+ m))).
Proof.
  intros Hcfg Hv Hc Hb Hne Hq. unfold outcome, trace.
  rewrite (Index_execute_run d norm props cfg),
          (Part000_execute_run d norm props cfg) by done.
  rewrite Hc, Hb. simpl.
  rewrite bool_decide_eq_false_2 by (by destruct sql).
  rewrite Hq. simpl. split_and!; try done. by intros ->.
Qed.

Lemma C3_witness :
  outcome (Index.execute id Sample.failing (Sample.props (Some "selec 1")))
    = Thrown (IntegrationError "Postgres query failed, syntax error")
  ∧ closes (trace (Index.execute id Sample.failing (Sample.props (Some "selec 1")))) = 1
  ∧ outcome (Part000.execute id Sample.failing (Sample.props (Some "selec 1")))
    = Thrown (IntegrationError "Postgres query failed, syntax error").
Proof.
  destruct (C3_statement_failure_is_wrapped id Sample.failing
              (Sample.props (Some "selec 1")) Sample.cfg "selec 1" "syntax error"
              eq_refl valid_Sample_cfg eq_refl eq_refl ltac:(discriminate) eq_refl)
    as (Ho & Hc & _ & _ & _ & Hp).
  split; [exact Ho|]. split; [exact Hc|]. exact (Hp eq_refl).
Defined.

(** C7.  With a configuration that passes the checks and a connection that
    is established, [test] connects once, sends the statement [SELECT NOW()]
    and ends the client once, whether the statement succeeds or fails. *)
Theorem C7_test_opens_and_closes_once
    (d : Driver) (cfg : PostgresDatasourceConfiguration) :
  valid cfg → connect_answer d = None →
  trace (Index.test d (Some cfg))
    = opening cfg TEST_CONNECTION_TIMEOUT ++ [Query "SELECT NOW()" None; End]
  ∧ opens (trace (Index.test d (Some cfg))) = 1
  ∧ closes (trace (Index.test d (Some cfg))) = 1
  ∧ trace (Part000.test d (Some cfg))
    = opening cfg TEST_CONNECTION_TIMEOUT ++ [Query "SELECT NOW()" None; End]
  ∧ opens (trace (Part000.test d (Some cfg))) = 1
  ∧ closes (trace (Part000.test d (Some cfg))) = 1.
Proof.
  intros Hv Hc. unfold trace.
  rewrite Index_test_run, Part000_test_run by done.
  by rewrite Hc.
Qed.

Lemma C7_witness :
  (opens (trace (Index.test Sample.server (Some Sample.cfg))) = 1
   ∧ closes (trace (Index.test Sample.server (Some Sample.cfg))) = 1)
  ∧ (opens (trace (Index.test Sample.failing (Some Sample.cfg))) = 1
     ∧ closes (trace (Index.test Sample.failing (Some Sample.cfg))) = 1).
Proof.
  split.
  - destruct (C7_test_opens_and_closes_once Sample.server Sample.cfg
                valid_Sample_cfg eq_refl) as (_ & Ho & Hc & _).
    by split.
  - destruct (C7_test_opens_and_closes_once Sample.failing Sample.cfg
                valid_Sample_cfg eq_refl) as (_ & Ho & Hc & _).
    by split.
Defined.

(** C8.  The client is built with one option record.  Without TLS the
    record has no TLS option set.  With TLS the set has
    [rejectUnauthorized] false; it has the entries [ca], [key] and [cert] of
    the configuration when the self-signed mode is selected, and none of
    them otherwise. *)
Theorem C8_tls_option_set
    (d : Driver) (cfg : PostgresDatasourceConfiguration) (timeout : Z) :
  valid cfg →
  client_configs (trace (Index.createConnection d (Some cfg) timeout))
    = [options_of cfg timeout]
  ∧ client_configs (trace (Part000.createClient d (Some cfg) timeout))
    = [options_of cfg timeout]
  ∧ (truthy_bool (connection cfg ≫= useSsl) = false →
       cc_ssl (options_of cfg timeout) = None)
  ∧ (truthy_bool (connection cfg ≫= useSsl) = true →
       ∃ m : gmap string JsValue,
         cc_ssl (options_of cfg timeout) = Some m
         ∧ m !! "rejectUnauthorized" = Some (JsBool false)
         ∧ (truthy_bool (connection cfg ≫= useSelfSignedSsl) = true →
              m !! "ca" = Some (js_of_string (connection cfg ≫= ca))
              ∧ m !! "key" = Some (js_of_string (connection cfg ≫= key))
              ∧ m !! "cert" = Some (js_of_string (connection cfg ≫= cert)))
         ∧ (truthy_bool (connection cfg ≫= useSelfSignedSsl) = false →
              m !! "ca" = None ∧ m !! "key" = None ∧ m !! "cert" = None
              ∧ m = {[ "rejectUnauthorized" := JsBool false ]})).
Proof.
  intros Hv. split_and!.
  - unfold trace, run, Index.createConnection.
    rewrite connect_with_valid by done. done.
  - unfold trace, run. rewrite Part000_createClient_valid by done. done.
  - apply ssl_config_of_off.
  - intros Hssl. simpl.
    destruct (truthy_bool (connection cfg ≫= useSelfSignedSsl)) eqn:Hself.
    + destruct (ssl_config_of_self_signed cfg Hssl Hself)
        as (m & Hm & Hr & Hca & Hkey & Hcert).
      exists m. by split_and!.
    + rewrite (ssl_config_of_plain cfg Hssl Hself).
      eexists. split; [done|]. by split_and!.
Qed.

Lemma C8_witness :
  ∃ m : gmap string JsValue,
    cc_ssl (options_of Sample.cfg 30000) = Some m
    ∧ m !! "rejectUnauthorized" = Some (JsBool false)
    ∧ m !! "ca" = Some (JsString "CA")
    ∧ m !! "key" = Some (JsString "KEY")
    ∧ m !! "cert" = Some JsUndefined.
Proof.
  destruct (C8_tls_option_set Sample.server Sample.cfg 30000 valid_Sample_cfg)
    as (_ & _ & _ & Hon).
  destruct (Hon eq_refl) as (m & Hm & Hr & Hself & _).
  destruct (Hself eq_refl) as (Hca & Hkey & Hcert).
  exists m. by split_and!.
Defined.

(** C9, as stated, fails on the revision index.ts: [createConnection] runs
    before the [try] statement of [metadata], so a rejected configuration
    and a refused connection leave [metadata] with their own message. *)
Lemma C9_connection_failures_keep_their_message :
  outcome (Index.metadata Sample.server None)
    = Thrown (IntegrationError "Datasource not found for Postgres step")
  ∧ String.prefix "Failed to connect to Postgres, "
                  "Datasource not found for Postgres step" = false
  ∧ outcome (Index.metadata Sample.unreachable (Some Sample.cfg))
    = Thrown (DriverError "connect ECONNREFUSED")
  ∧ String.prefix "Failed to connect to Postgres, " "connect ECONNREFUSED" = false.
Proof. by vm_compute. Qed.

(** C9, amended.  Once the connection is established, [metadata] fails
    exactly when a catalog query fails, and the failure is an
    [IntegrationError] whose message is the prefix
    [Failed to connect to Postgres, ] followed by the message of the query
    (in part_000: when [end()] does not fail).  In part_000 a refused
    connection leaves [createClient] with a message of the same form. *)
Theorem C9_catalog_failure_reported_as_connection_failure
    (d : Driver) (cfg : PostgresDatasourceConfiguration) :
  valid cfg → connect_answer d = None →
  (∀ e, outcome (Index.metadata d (Some cfg)) = Thrown e ↔
        ∃ m, catalog_failure d m
           ∧ e = IntegrationError ("Failed to connect to Postgres, " +:+ m))
  ∧ (end_answer d = None →
     ∀ e, outcome (Part000.metadata d (Some cfg)) = Thrown e ↔
          ∃ m, catalog_failure d m
             ∧ e = IntegrationError ("Failed to connect to Postgres, " +:+ m))
  ∧ (∀ d' m timeout, connect_answer d' = Some m →
       outcome (Part000.createClient d' (Some cfg) timeout)
         = Thrown (IntegrationError ("Failed to connect to Postgres, " +:+ m))).
Proof.
  intros Hv Hc.
  assert (Hcases : ∀ e,
    match table_answer d with
    | Fails m => Thrown (IntegrationError (failed_to_connect +:+ m))
    | Rows rows =>
        match keys_answer d with
        | Fails m => Thrown (IntegrationError (failed_to_connect +:+ m))
        | Rows ks =>
            Returned {| dbSchema := {| tables := Fold.schema_tables rows ks |} |}
        end
    end = Thrown e ↔
    ∃ m, catalog_failure d m ∧ e = IntegrationError (failed_to_connect +:+ m)).
  { intros e. unfold catalog_failure.
    destruct (table_answer d) as [rows|m]; [destruct (keys_answer d) as [ks|m]|].
    - split; [done|]. intros (m & [Hm|(rows' & _ & Hm)] & _); done.
    - split.
      + intros [= <-]. exists m. split; [right; by exists rows|done].
      + intros (m' & [Hm|(rows' & _ & Hm)] & ->); [done|]. by injection Hm as ->.
    - split.
      + intros [= <-]. exists m. split; [by left|done].
      + intros (m' & [Hm|(rows' & Hm & _)] & ->); [|done]. by injection Hm as ->. }
  split_and!.
  - intros e. unfold outcome. rewrite Index_metadata_run by done. rewrite Hc.
    rewrite <- Hcases. by destruct (table_answer d).
  - intros He e. unfold outcome. rewrite Part000_metadata_run by done.
    rewrite Hc, He. cbv zeta. rewrite <- Hcases. by destruct (table_answer d).
  - intros d' m timeout Hc'. unfold outcome, run.
    rewrite Part000_createClient_valid by done. by rewrite Hc'.
Qed.

Lemma C9_witness :
  outcome (Index.metadata Sample.failing (Some Sample.cfg))
    = Thrown (IntegrationError "Failed to connect to Postgres, permission denied")
  ∧ outcome (Part000.metadata Sample.failing (Some Sample.cfg))
    = Thrown (IntegrationError "Failed to connect to Postgres, permission denied")
  ∧ outcome (Part000.createClient Sample.unreachable (Some Sample.cfg) 30000)
    = Thrown (IntegrationError "Failed to connect to Postgres, connect ECONNREFUSED").
Proof.
  destruct (C9_catalog_failure_reported_as_connection_failure
              Sample.failing Sample.cfg valid_Sample_cfg eq_refl)
    as (Hi & Hp & Hcc).
  split_and!.
  - apply Hi. exists "permission denied". split; [by left|done].
  - apply (Hp eq_refl). exists "permission denied". split; [by left|done].
  - by apply Hcc.
Defined.

End Claims.

(** * Further properties of the connection life cycle *)

Section Rejection.

Variable d : Driver.

Lemma valid_or_rejected cfgopt :
  (∃ cfg, cfgopt = Some cfg ∧ valid cfg) ∨ ∃ m, rejected cfgopt m.
Proof.
  destruct cfgopt as [cfg|]; [|right; eexists; constructor].
  destruct (endpoint cfg) as [ep|] eqn:Hep;
    [|right; eexists; by apply rejected_endpoint].
  destruct (authentication cfg) as [auth|] eqn:Hauth;
    [|right; eexists; by eapply rejected_authentication].
  destruct (truthy_string (databaseName auth)) eqn:Hdb;
    [|right; eexists; by eapply rejected_database].
  left. exists cfg. split; [done|]. split; [by eexists|]. by exists auth.
Qed.

Lemma rejected_not_valid cfg m : rejected (Some cfg) m → ¬ valid cfg.
Proof.
  intros Hr [[ep Hep] (auth & Hauth & Hdb)].
  inversion Hr; simplify_eq; congruence.
Qed.

Lemma connect_with_rejected cfg m timeout st :
  rejected (Some cfg) m →
  connect_with d cfg timeout st = (Thrown (IntegrationError m), st).
Proof.
  intros Hr. unfold connect_with.
  inversion Hr as [|? Hep|? ep Hep Hauth|? ep auth Hep Hauth Hdb]; subst.
  - by rewrite Hep.
  - by rewrite Hep, Hauth.
  - by rewrite Hep, Hauth, Hdb.
Qed.

Lemma Index_createConnection_rejected cfgopt m timeout st :
  rejected cfgopt m →
  Index.createConnection d cfgopt timeout st = (Thrown (IntegrationError m), st).
Proof.
  intros Hr. destruct cfgopt as [cfg|]; simpl.
  - by apply connect_with_rejected.
  - by inversion Hr.
Qed.

Lemma Part000_createClient_rejected cfgopt m timeout st :
  rejected cfgopt m →
  Part000.createClient d cfgopt timeout st =
  (Thrown (IntegrationError (createClient_message cfgopt m)), st).
Proof.
  intros Hr. destruct cfgopt as [cfg|]; unfold Part000.createClient; simpl.
  - unfold try_catch. by rewrite (connect_with_rejected cfg m).
  - by inversion Hr.
Qed.

(** The operations, when no client can be built. *)
Lemma Index_execute_rejected norm props m :
  rejected (datasourceConfiguration props) m →
  run (Index.execute norm d props) = (Thrown (IntegrationError m), initial).
Proof.
  intros Hr. unfold run, Index.execute. unfold mbind at 1, M_bind at 1.
  by rewrite (Index_createConnection_rejected _ m).
Qed.

Lemma Index_metadata_rejected cfgopt m :
  rejected cfgopt m →
  run (Index.metadata d cfgopt) = (Thrown (IntegrationError m), initial).
Proof.
  intros Hr. unfold run, Index.metadata. unfold mbind at 1, M_bind at 1.
  by rewrite (Index_createConnection_rejected _ m).
Qed.

Lemma Index_test_rejected cfgopt m :
  rejected cfgopt m →
  run (Index.test d cfgopt) =
  (Thrown (IntegrationError (test_failed +:+ m)), initial).
Proof.
  intros Hr. unfold run, Index.test.
  unfold try_catch_finally, try_finally, try_catch, mbind, M_bind, set_client.
  cbn [calls var_client initial].
  by rewrite (Index_createConnection_rejected _ m).
Qed.

Lemma Part000_execute_rejected norm props m :
  rejected (datasourceConfiguration props) m →
  run (Part000.execute norm d props) =
  (Thrown (IntegrationError (createClient_message (datasourceConfiguration props) m)),
   initial).
Proof.
  intros Hr. unfold run, Part000.execute. unfold mbind at 1, M_bind at 1.
  by rewrite (Part000_createClient_rejected _ m).
Qed.

Lemma Part000_metadata_rejected cfgopt m :
  rejected cfgopt m →
  run (Part000.metadata d cfgopt) =
  (Thrown (IntegrationError (failed_to_connect +:+ createClient_message cfgopt m)),
   initial).
Proof.
  intros Hr. unfold run, Part000.metadata.
  unfold try_catch_finally, try_finally, try_catch, mbind, M_bind, set_client.
  cbn [calls var_client initial].
  by rewrite (Part000_createClient_rejected _ m).
Qed.

Lemma Part000_test_rejected cfgopt m :
  rejected cfgopt m →
  run (Part000.test d cfgopt) =
  (Thrown (IntegrationError (test_failed +:+ createClient_message cfgopt m)),
   initial).
Proof.
  intros Hr. unfold run, Part000.test.
  unfold try_catch_finally, try_finally, try_catch, mbind, M_bind, set_client.
  cbn [calls var_client initial].
  by rewrite (Part000_createClient_rejected _ m).
Qed.

End Rejection.

Section LifecycleExtras.

(** A configuration that fails a check is refused before anything is done:
    in index.ts [execute] and [metadata] leave with the message of the
    check, [test] with that message behind its own prefix; no client is
    built and nothing is sent. *)
Theorem Index_rejected_configuration
    (norm : list RawRow → list RawRow) (d : Driver)
    (props : PluginExecutionProps) (m : string) :
  rejected (datasourceConfiguration props) m →
  let cfgopt := datasourceConfiguration props in
  outcome (Index.execute norm d props) = Thrown (IntegrationError m)
  ∧ trace (Index.execute norm d props) = []
  ∧ outcome (Index.metadata d cfgopt) = Thrown (IntegrationError m)
  ∧ trace (Index.metadata d cfgopt) = []
  ∧ outcome (Index.test d cfgopt)
    = Thrown (IntegrationError ("Test Postgres connection failed, " +:+ m))
  ∧ trace (Index.test d cfgopt) = [].
Proof.
  intros Hr cfgopt. unfold outcome, trace.
  rewrite (Index_execute_rejected d norm props m),
          (Index_metadata_rejected d cfgopt m),
          (Index_test_rejected d cfgopt m) by done.
  done.
Qed.

Lemma Index_rejected_configuration_witness :
  outcome (Index.metadata Sample.server (Some Sample.cfg_no_auth))
    = Thrown (IntegrationError "Authentication not specified for Postgres step")
  ∧ trace (Index.test Sample.server None) = [].
Proof.
  split.
  - apply (Index_rejected_configuration id Sample.server
             {| context := {| preparedStatementContext := None |};
                datasourceConfiguration := Some Sample.cfg_no_auth;
                actionConfiguration := {| body := None |} |}
             "Authentication not specified for Postgres step").
    by eapply rejected_authentication.
  - apply (Index_rejected_configuration id Sample.server
             {| context := {| preparedStatementContext := None |};
                datasourceConfiguration := None;
                actionConfiguration := {| body := None |} |}
             "Datasource not found for Postgres step").
    constructor.
Defined.

(** In part_000 the checks on the parts of the configuration sit inside the
    [try] statement of [createClient], so their messages come behind the
    prefix [Failed to connect to Postgres, ]; [metadata] adds the prefix
    once more and [test] its own.  No client is built and nothing is
    sent. *)
Theorem Part000_rejected_configuration
    (norm : list RawRow → list RawRow) (d : Driver)
    (props : PluginExecutionProps) (m : string) :
  rejected (datasourceConfiguration props) m →
  let cfgopt := datasourceConfiguration props in
  let m' := match cfgopt with
            | Some _ => "Failed to connect to Postgres, " +:+ m
            | None => m
            end in
  outcome (Part000.execute norm d props) = Thrown (IntegrationError m')
  ∧ trace (Part000.execute norm d props) = []
  ∧ outcome (Part000.metadata d cfgopt)
    = Thrown (IntegrationError ("Failed to connect to Postgres, " +:+ m'))
  ∧ trace (Part000.metadata d cfgopt) = []
  ∧ outcome (Part000.test d cfgopt)
    = Thrown (IntegrationError ("Test Postgres connection failed, " +:+ m'))
  ∧ trace (Part000.test d cfgopt) = [].
Proof.
  intros Hr cfgopt m'. unfold outcome, trace.
  rewrite (Part000_execute_rejected d norm props m),
          (Part000_metadata_rejected d cfgopt m),
          (Part000_test_rejected d cfgopt m) by done.
  done.
Qed.

Lemma Part000_rejected_configuration_witness :
  outcome (Part000.metadata Sample.server (Some Sample.cfg_no_auth))
    = Thrown (IntegrationError
        ("Failed to connect to Postgres, Failed to connect to Postgres, " +:+
         "Authentication not specified for Postgres step"))
  ∧ outcome (Part000.test Sample.server None)
    = Thrown (IntegrationError
        "Test Postgres connection failed, Datasource not found for Postgres step").
Proof.
  split.
  - apply (Part000_rejected_configuration id Sample.server
             {| context := {| preparedStatementContext := None |};
                datasourceConfiguration := Some Sample.cfg_no_auth;
                actionConfiguration := {| body := None |} |}
             "Authentication not specified for Postgres step").
    by eapply rejected_authentication.
  - apply (Part000_rejected_configuration id Sample.server
             {| context := {| preparedStatementContext := None |};
                datasourceConfiguration := None;
                actionConfiguration := {| body := None |} |}
             "Datasource not found for Postgres step").
    constructor.
Defined.

(** A client is built exactly when the configuration has an endpoint, an
    authentication and a database name that is not empty; a configuration is
    rejected with one message only. *)
Theorem client_built_iff_valid
    (d : Driver) (cfgopt : option PostgresDatasourceConfiguration) (timeout : Z) :
  (client_configs (trace (Index.createConnection d cfgopt timeout)) ≠ []
     ↔ ∃ cfg, cfgopt = Some cfg ∧ valid cfg)
  ∧ (client_configs (trace (Part000.createClient d cfgopt timeout)) ≠ []
     ↔ ∃ cfg, cfgopt = Some cfg ∧ valid cfg)
  ∧ ((∃ m, rejected cfgopt m) ↔ ¬ ∃ cfg, cfgopt = Some cfg ∧ valid cfg)
  ∧ (∀ m m', rejected cfgopt m → rejected cfgopt m' → m = m').
Proof.
  assert (Hexcl : ∀ m, rejected cfgopt m → ¬ ∃ cfg, cfgopt = Some cfg ∧ valid cfg).
  { intros m Hr (cfg & -> & Hv). by eapply rejected_not_valid. }
  split_and!.
  - destruct (valid_or_rejected cfgopt) as [(cfg & -> & Hv)|[m Hr]].
    + unfold trace, run, Index.createConnection.
      rewrite connect_with_valid by done. simpl. split; [by eexists|done].
    + unfold trace, run. rewrite (Index_createConnection_rejected d cfgopt m) by done.
      simpl. split; [done|]. intros H. by destruct (Hexcl m).
  - destruct (valid_or_rejected cfgopt) as [(cfg & -> & Hv)|[m Hr]].
    + unfold trace, run. rewrite Part000_createClient_valid by done.
      simpl. split; [by eexists|done].
    + unfold trace, run. rewrite (Part000_createClient_rejected d cfgopt m) by done.
      simpl. split; [done|]. intros H. by destruct (Hexcl m).
  - split; [intros [m Hr]; by eapply Hexcl|].
    intros Hnv. by destruct (valid_or_rejected cfgopt).
  - intros m m' Hr Hr'. inversion Hr; inversion Hr'; simplify_eq; congruence.
Qed.

Lemma client_built_iff_valid_witness :
  client_configs (trace (Index.createConnection Sample.server (Some Sample.cfg) 30000))
    ≠ []
  ∧ ¬ ∃ cfg, Some Sample.cfg_no_auth = Some cfg ∧ valid cfg.
Proof.
  split.
  - apply (client_built_iff_valid Sample.server (Some Sample.cfg) 30000).
    exists Sample.cfg. split; [done|]. apply valid_Sample_cfg.
  - apply (client_built_iff_valid Sample.server (Some Sample.cfg_no_auth) 30000).
    eexists. by eapply rejected_authentication.
Defined.

(** When the server refuses the connection, index.ts ends no client and
    sends no statement; [execute] and [metadata] leave with the failure of
    the driver as it is, [test] wraps its message. *)
Theorem Index_connection_refused
    (norm : list RawRow → list RawRow) (d : Driver)
    (props : PluginExecutionProps) (cfg : PostgresDatasourceConfiguration)
    (m : string) :
  datasourceConfiguration props = Some cfg → valid cfg →
  connect_answer d = Some m →
  outcome (Index.execute norm d props) = Thrown (DriverError m)
  ∧ trace (Index.execute norm d props) = opening cfg 30000
  ∧ outcome (Index.metadata d (Some cfg)) = Thrown (DriverError m)
  ∧ trace (Index.metadata d (Some cfg)) = opening cfg 30000
  ∧ outcome (Index.test d (Some cfg))
    = Thrown (IntegrationError ("Test Postgres connection failed, " +:+ m))
  ∧ trace (Index.test d (Some cfg)) = opening cfg 5000
  ∧ closes (opening cfg 30000) = 0 ∧ statements (opening cfg 30000) = []
  ∧ closes (opening cfg 5000) = 0 ∧ statements (opening cfg 5000) = [].
Proof.
  intros Hcfg Hv Hc. unfold outcome, trace.
  rewrite (Index_execute_run d norm props cfg), Index_metadata_run,
          Index_test_run by done.
  by rewrite Hc.
Qed.

Lemma Index_connection_refused_witness :
  outcome (Index.execute id Sample.unreachable (Sample.props (Some "select 1")))
    = Thrown (DriverError "connect ECONNREFUSED")
  ∧ outcome (Index.test Sample.unreachable (Some Sample.cfg))
    = Thrown (IntegrationError
        "Test Postgres connection failed, connect ECONNREFUSED").
Proof.
  destruct (Index_connection_refused id Sample.unreachable
              (Sample.props (Some "select 1")) Sample.cfg "connect ECONNREFUSED"
              eq_refl valid_Sample_cfg eq_refl)
    as (He & _ & _ & _ & Ht & _).
  by split.
Defined.

(** When the server refuses the connection, part_000 ends no client and
    sends no statement; [createClient] wraps the message of the driver, and
    [metadata] and [test] wrap the result again. *)
Theorem Part000_connection_refused
    (norm : list RawRow → list RawRow) (d : Driver)
    (props : PluginExecutionProps) (cfg : PostgresDatasourceConfiguration)
    (m : string) :
  datasourceConfiguration props = Some cfg → valid cfg →
  connect_answer d = Some m →
  outcome (Part000.execute norm d props)
    = Thrown (IntegrationError ("Failed to connect to Postgres, " +:+ m))
  ∧ trace (Part000.execute norm d props) = opening cfg 30000
  ∧ outcome (Part000.metadata d (Some cfg))
    = Thrown (IntegrationError
        ("Failed to connect to Postgres, " +:+ "Failed to connect to Postgres, " +:+ m))
  ∧ trace (Part000.metadata d (Some cfg)) = opening cfg 30000
  ∧ outcome (Part000.test d (Some cfg))
    = Thrown (IntegrationError
        ("Test Postgres connection failed, " +:+ "Failed to connect to Postgres, " +:+ m))
  ∧ trace (Part000.test d (Some cfg)) = opening cfg 5000.
Proof.
  intros Hcfg Hv Hc. unfold outcome, trace.
  rewrite (Part000_execute_run d norm props cfg), Part000_metadata_run,
          Part000_test_run by done.
  by rewrite Hc.
Qed.

Lemma Part000_connection_refused_witness :
  outcome (Part000.metadata Sample.unreachable (Some Sample.cfg))
    = Thrown (IntegrationError
        ("Failed to connect to Postgres, Failed to connect to Postgres, " +:+
         "connect ECONNREFUSED"))
  ∧ closes (trace (Part000.metadata Sample.unreachable (Some Sample.cfg))) = 0.
Proof.
  destruct (Part000_connection_refused id Sample.unreachable
              (Sample.props (Some "select 1")) Sample.cfg "connect ECONNREFUSED"
              eq_refl valid_Sample_cfg eq_refl)
    as (_ & _ & Hm & Ht & _).
  split; [exact Hm|]. by rewrite Ht.
Defined.

(** A statement that the server answers: [execute] returns the rows as
    [normalizeTableColumnNames] leaves them, having sent the statement and
    its values once, unchanged (part_000: when [end()] does not fail). *)
Theorem execute_returns_normalized_rows
    (norm : list RawRow → list RawRow) (d : Driver)
    (props : PluginExecutionProps) (cfg : PostgresDatasourceConfiguration)
    (sql : string) (rows : list RawRow) :
  datasourceConfiguration props = Some cfg → valid cfg →
  connect_answer d = None →
  body (actionConfiguration props) = Some sql → sql ≠ EmptyString →
  query_answer d sql (preparedStatementContext (context props)) = Rows rows →
  outcome (Index.execute norm d props) = Returned {| output := Some (norm rows) |}
  ∧ (end_answer d = None →
     outcome (Part000.execute norm d props) = Returned {| output := Some (norm rows) |})
  ∧ Query sql (preparedStatementContext (context props))
      ∈ trace (Index.execute norm d props)
  ∧ Query sql (preparedStatementContext (context props))
      ∈ trace (Part000.execute norm d props)
  ∧ statements (trace (Index.execute norm d props)) = [sql]
  ∧ statements (trace (Part000.execute norm d props)) = [sql].
Proof.
  intros Hcfg Hv Hc Hb Hne Hq. unfold outcome, trace.
  rewrite (Index_execute_run d norm props cfg),
          (Part000_execute_run d norm props cfg) by done.
  rewrite Hc, Hb. simpl.
  rewrite bool_decide_eq_false_2 by (by destruct sql).
  rewrite Hq. simpl. split_and!; try done.
  - by intros ->.
  - apply list_elem_of_In. simpl. auto 10.
  - apply list_elem_of_In. simpl. auto 10.
Qed.

Lemma execute_returns_normalized_rows_witness :
  outcome (Index.execute id Sample.server (Sample.props (Some "select now()")))
    = Returned {| output := Some [[("now", JsString "2024-01-01")]] |}
  ∧ statements (trace (Part000.execute id Sample.server
                         (Sample.props (Some "select now()"))))
    = ["select now()"].
Proof.
  destruct (execute_returns_normalized_rows id Sample.server
              (Sample.props (Some "select now()")) Sample.cfg "select now()"
              [[("now", JsString "2024-01-01")]]
              eq_refl valid_Sample_cfg eq_refl eq_refl ltac:(discriminate) eq_refl)
    as (Ho & _ & _ & _ & _ & Hs).
  by split.
Defined.

(** In index.ts [execute] on an empty statement connects and returns
    without ending the client; part_000 ends it. *)
Theorem Index_execute_empty_statement_keeps_connection
    (norm : list RawRow → list RawRow) (d : Driver)
    (props : PluginExecutionProps) (cfg : PostgresDatasourceConfiguration) :
  datasourceConfiguration props = Some cfg → valid cfg →
  connect_answer d = None →
  isEmpty (body (actionConfiguration props)) = true →
  opens (trace (Index.execute norm d props)) = 1
  ∧ closes (trace (Index.execute norm d props)) = 0
  ∧ (End ∉ trace (Index.execute norm d props))
  ∧ opens (trace (Part000.execute norm d props)) = 1
  ∧ closes (trace (Part000.execute norm d props)) = 1.
Proof.
  intros Hcfg Hv Hc He.
  rewrite (Index_execute_empty_trace norm d props cfg) by done.
  unfold trace. rewrite (Part000_execute_run d norm props cfg) by done.
  rewrite Hc. cbv zeta. rewrite He. split_and!; try done.
  intros Hin%list_elem_of_In. simpl in Hin. intuition discriminate.
Qed.

Lemma Index_execute_empty_statement_keeps_connection_witness :
  closes (trace (Index.execute id Sample.server (Sample.props None))) = 0
  ∧ closes (trace (Part000.execute id Sample.server (Sample.props None))) = 1.
Proof.
  destruct (Index_execute_empty_statement_keeps_connection id Sample.server
              (Sample.props None) Sample.cfg eq_refl valid_Sample_cfg eq_refl eq_refl)
    as (_ & Hi & _ & _ & Hp).
  by split.
Defined.

(** In index.ts nothing depends on the answer of [end()]: with another
    answer every operation has the same result and makes the same calls. *)
Theorem Index_end_failure_is_dropped
    (norm : list RawRow → list RawRow) (d : Driver) (e : option string)
    (props : PluginExecutionProps)
    (cfgopt : option PostgresDatasourceConfiguration) :
  run (Index.execute norm (with_end d e) props) = run (Index.execute norm d props)
  ∧ run (Index.metadata (with_end d e) cfgopt) = run (Index.metadata d cfgopt)
  ∧ run (Index.test (with_end d e) cfgopt) = run (Index.test d cfgopt).
Proof.
  split_and!.
  - destruct (valid_or_rejected (datasourceConfiguration props))
      as [(cfg & Hcfg & Hv)|[m Hr]].
    + by rewrite (Index_execute_run (with_end d e) norm props cfg),
                 (Index_execute_run d norm props cfg).
    + by rewrite !(Index_execute_rejected _ norm props m).
  - destruct (valid_or_rejected cfgopt) as [(cfg & -> & Hv)|[m Hr]].
    + by rewrite !Index_metadata_run.
    + by rewrite !(Index_metadata_rejected _ cfgopt m).
  - destruct (valid_or_rejected cfgopt) as [(cfg & -> & Hv)|[m Hr]].
    + by rewrite !Index_test_run.
    + by rewrite !(Index_test_rejected _ cfgopt m).
Qed.

(** In part_000 [end()] is awaited in the [finally] block: when it rejects,
    its failure is what the operation leaves with, whether the statements
    before it succeeded or failed. *)
Theorem Part000_end_failure_replaces_result
    (norm : list RawRow → list RawRow) (d : Driver)
    (props : PluginExecutionProps) (cfg : PostgresDatasourceConfiguration)
    (m : string) :
  datasourceConfiguration props = Some cfg → valid cfg →
  connect_answer d = None → end_answer d = Some m →
  outcome (Part000.execute norm d props) = Thrown (DriverError m)
  ∧ outcome (Part000.metadata d (Some cfg)) = Thrown (DriverError m)
  ∧ outcome (Part000.test d (Some cfg)) = Thrown (DriverError m).
Proof.
  intros Hcfg Hv Hc He. unfold outcome.
  rewrite (Part000_execute_run d norm props cfg), Part000_metadata_run,
          Part000_test_run by done.
  rewrite Hc, He. cbv zeta. split_and!.
  - by destruct (isEmpty _).
  - by destruct (table_answer d).
  - done.
Qed.

Lemma Part000_end_failure_replaces_result_witness :
  outcome (Part000.execute id Sample.hanging (Sample.props (Some "select 1")))
    = Thrown (DriverError "end failed")
  ∧ outcome (Part000.metadata Sample.hanging (Some Sample.cfg))
    = Thrown (DriverError "end failed").
Proof.
  destruct (Part000_end_failure_replaces_result id Sample.hanging
              (Sample.props (Some "select 1")) Sample.cfg "end failed"
              eq_refl valid_Sample_cfg eq_refl eq_refl)
    as (He & Hm & _).
  by split.
Defined.

(** Once the connection is established, [metadata] sends the column query
    first and the constraint query only when the first was answered, and
    ends the client once in every case. *)
Theorem metadata_statements_and_close
    (d : Driver) (cfg : PostgresDatasourceConfiguration) :
  valid cfg → connect_answer d = None →
  let sent := match table_answer d with
              | Rows _ => [TableQuery; KeysQuery]
              | Fails _ => [TableQuery]
              end in
  statements (trace (Index.metadata d (Some cfg))) = sent
  ∧ opens (trace (Index.metadata d (Some cfg))) = 1
  ∧ closes (trace (Index.metadata d (Some cfg))) = 1
  ∧ last (trace (Index.metadata d (Some cfg))) = Some End
  ∧ statements (trace (Part000.metadata d (Some cfg))) = sent
  ∧ opens (trace (Part000.metadata d (Some cfg))) = 1
  ∧ closes (trace (Part000.metadata d (Some cfg))) = 1
  ∧ last (trace (Part000.metadata d (Some cfg))) = Some End.
Proof.
  intros Hv Hc sent. unfold sent, trace.
  rewrite Index_metadata_run, Part000_metadata_run by done.
  rewrite Hc. cbv zeta. by destruct (table_answer d).
Qed.

Lemma metadata_statements_and_close_witness :
  statements (trace (Index.metadata Sample.failing (Some Sample.cfg))) = [TableQuery]
  ∧ closes (trace (Index.metadata Sample.failing (Some Sample.cfg))) = 1
  ∧ statements (trace (Part000.metadata Sample.server (Some Sample.cfg)))
    = [TableQuery; KeysQuery].
Proof.
  destruct (metadata_statements_and_close Sample.failing Sample.cfg
              valid_Sample_cfg eq_refl) as (Hs & _ & Hc & _).
  destruct (metadata_statements_and_close Sample.server Sample.cfg
              valid_Sample_cfg eq_refl) as (_ & _ & _ & _ & Hs' & _).
  by split_and!.
Defined.

(** Whatever the configuration, the request and the answers of the server:
    an operation builds at most one client, connects at most once, never
    ends a client it did not connect, and sends nothing without having
    connected; [execute] and [test] send at most one statement, [metadata]
    at most two. *)
Theorem operations_are_disciplined
    (norm : list RawRow → list RawRow) (d : Driver)
    (props : PluginExecutionProps)
    (cfgopt : option PostgresDatasourceConfiguration) :
  disciplined 1 (trace (Index.execute norm d props))
  ∧ disciplined 2 (trace (Index.metadata d cfgopt))
  ∧ disciplined 1 (trace (Index.test d cfgopt))
  ∧ disciplined 1 (trace (Part000.execute norm d props))
  ∧ disciplined 2 (trace (Part000.metadata d cfgopt))
  ∧ disciplined 1 (trace (Part000.test d cfgopt)).
Proof.
  assert (Hnil : ∀ n, disciplined n []).
  { intros n. unfold disciplined. simpl. split_and!; auto with lia. }
  assert (Hopen : ∀ n cfg t l,
            closes l ≤ 1 → opens l = 0 → client_configs l = [] →
            length (statements l) ≤ n →
            disciplined n (opening cfg t ++ l)).
  { intros n cfg t l Hc Ho Hcc Hs. unfold disciplined.
    change (opens (opening cfg t ++ l)) with (S (opens l)).
    change (closes (opening cfg t ++ l)) with (closes l).
    change (client_configs (opening cfg t ++ l))
      with (options_of cfg t :: client_configs l).
    change (statements (opening cfg t ++ l)) with (statements l).
    rewrite Hcc, Ho. simpl. split_and!; auto with lia. }
  assert (Hopen0 : ∀ n cfg t, disciplined n (opening cfg t)).
  { intros n cfg t. rewrite <- (app_nil_r (opening cfg t)).
    apply Hopen; simpl; auto with lia. }
  unfold trace. split_and!.
  - destruct (valid_or_rejected (datasourceConfiguration props))
      as [(cfg & Hcfg & Hv)|[m Hr]].
    + rewrite (Index_execute_run d norm props cfg) by done.
      destruct (connect_answer d); [apply Hopen0|]. cbv zeta.
      destruct (isEmpty _); [apply Hopen0|]. apply Hopen; simpl; auto with lia.
    + by rewrite (Index_execute_rejected d norm props m).
  - destruct (valid_or_rejected cfgopt) as [(cfg & -> & Hv)|[m Hr]].
    + rewrite Index_metadata_run by done.
      destruct (connect_answer d); [apply Hopen0|].
      destruct (table_answer d); apply Hopen; simpl; auto with lia.
    + by rewrite (Index_metadata_rejected d cfgopt m).
  - destruct (valid_or_rejected cfgopt) as [(cfg & -> & Hv)|[m Hr]].
    + rewrite Index_test_run by done.
      destruct (connect_answer d); [apply Hopen0|]. apply Hopen; simpl; auto with lia.
    + by rewrite (Index_test_rejected d cfgopt m).
  - destruct (valid_or_rejected (datasourceConfiguration props))
      as [(cfg & Hcfg & Hv)|[m Hr]].
    + rewrite (Part000_execute_run d norm props cfg) by done.
      destruct (connect_answer d); [apply Hopen0|]. cbv zeta.
      destruct (isEmpty _); apply Hopen; simpl; auto with lia.
    + by rewrite (Part000_execute_rejected d norm props m).
  - destruct (valid_or_rejected cfgopt) as [(cfg & -> & Hv)|[m Hr]].
    + rewrite Part000_metadata_run by done.
      destruct (connect_answer d); [apply Hopen0|]. cbv zeta.
      destruct (table_answer d); apply Hopen; simpl; auto with lia.
    + by rewrite (Part000_metadata_rejected d cfgopt m).
  - destruct (valid_or_rejected cfgopt) as [(cfg & -> & Hv)|[m Hr]].
    + rewrite Part000_test_run by done.
      destruct (connect_answer d); [apply Hopen0|]. apply Hopen; simpl; auto with lia.
    + by rewrite (Part000_test_rejected d cfgopt m).
Qed.

(** On a connection that is established and with an [end()] that does not
    fail, the two revisions give the same result; they make the same calls
    in [metadata] and [test], and in [execute] unless the statement is
    empty. *)
Theorem revisions_agree
    (norm : list RawRow → list RawRow) (d : Driver)
    (props : PluginExecutionProps) (cfg : PostgresDatasourceConfiguration) :
  datasourceConfiguration props = Some cfg → valid cfg →
  connect_answer d = None → end_answer d = None →
  outcome (Part000.execute norm d props) = outcome (Index.execute norm d props)
  ∧ outcome (Part000.metadata d (Some cfg)) = outcome (Index.metadata d (Some cfg))
  ∧ outcome (Part000.test d (Some cfg)) = outcome (Index.test d (Some cfg))
  ∧ trace (Part000.metadata d (Some cfg)) = trace (Index.metadata d (Some cfg))
  ∧ trace (Part000.test d (Some cfg)) = trace (Index.test d (Some cfg))
  ∧ trace (Part000.execute norm d props) =
      if isEmpty (body (actionConfiguration props))
      then trace (Index.execute norm d props) ++ [End]
      else trace (Index.execute norm d props).
Proof.
  intros Hcfg Hv Hc He. unfold outcome, trace.
  rewrite (Index_execute_run d norm props cfg),
          (Part000_execute_run d norm props cfg),
          Index_metadata_run, Part000_metadata_run,
          Index_test_run, Part000_test_run by done.
  rewrite Hc, He. cbv zeta. split_and!.
  - by destruct (isEmpty _).
  - by destruct (table_answer d).
  - done.
  - by destruct (table_answer d).
  - done.
  - by destruct (isEmpty _).
Qed.

Lemma revisions_agree_witness :
  outcome (Part000.metadata Sample.server (Some Sample.cfg))
    = outcome (Index.metadata Sample.server (Some Sample.cfg))
  ∧ trace (Part000.execute id Sample.server (Sample.props None))
    = trace (Index.execute id Sample.server (Sample.props None)) ++ [End].
Proof.
  destruct (revisions_agree id Sample.server (Sample.props None) Sample.cfg
              eq_refl valid_Sample_cfg eq_refl eq_refl)
    as (_ & Hm & _ & _ & _ & He).
  split; [exact Hm|exact He].
Defined.

(** The client is built from the configuration as it is: host, port, user,
    password and database name are handed over unchanged; [test] asks for a
    connection timeout of 5000 ms, [execute] and [metadata] for 30000 ms. *)
Theorem client_options_from_configuration
    (norm : list RawRow → list RawRow) (d : Driver)
    (props : PluginExecutionProps) (cfg : PostgresDatasourceConfiguration)
    (ep : Endpoint) (auth : Authentication) :
  datasourceConfiguration props = Some cfg →
  endpoint cfg = Some ep → authentication cfg = Some auth →
  truthy_string (databaseName auth) = true →
  let options timeout :=
    {| cc_host := host ep; cc_user := username auth;
       cc_password := password auth; cc_database := databaseName auth;
       cc_port := port ep; cc_ssl := ssl_config_of cfg;
       cc_connectionTimeoutMillis := timeout |} in
  client_configs (trace (Index.execute norm d props)) = [options 30000%Z]
  ∧ client_configs (trace (Index.metadata d (Some cfg))) = [options 30000%Z]
  ∧ client_configs (trace (Index.test d (Some cfg))) = [options 5000%Z]
  ∧ client_configs (trace (Part000.execute norm d props)) = [options 30000%Z]
  ∧ client_configs (trace (Part000.metadata d (Some cfg))) = [options 30000%Z]
  ∧ client_configs (trace (Part000.test d (Some cfg))) = [options 5000%Z].
Proof.
  intros Hcfg Hep Hauth Hdb options.
  assert (Hv : valid cfg) by (split; [by eexists|by exists auth]).
  assert (Ho : ∀ t, options_of cfg t = options t).
  { intros t. unfold options_of, options. by rewrite Hep, Hauth. }
  assert (Happ : ∀ t l, client_configs l = [] →
            client_configs (opening cfg t ++ l) = [options t]).
  { intros t l Hl. unfold opening. simpl. fold (client_configs l).
    by rewrite Hl, Ho. }
  assert (Hop : ∀ t, client_configs (opening cfg t) = [options t]).
  { intros t. unfold opening. simpl. by rewrite Ho. }
  unfold trace.
  rewrite (Index_execute_run d norm props cfg),
          (Part000_execute_run d norm props cfg),
          Index_metadata_run, Part000_metadata_run,
          Index_test_run, Part000_test_run by done.
  cbv zeta. split_and!.
  - destruct (connect_answer d); [apply Hop|].
    destruct (isEmpty _); [apply Hop|by apply Happ].
  - destruct (connect_answer d); [apply Hop|].
    destruct (table_answer d); by apply Happ.
  - destruct (connect_answer d); [apply Hop|by apply Happ].
  - destruct (connect_answer d); [apply Hop|].
    destruct (isEmpty _); by apply Happ.
  - destruct (connect_answer d); [apply Hop|].
    destruct (table_answer d); by apply Happ.
  - destruct (connect_answer d); [apply Hop|by apply Happ].
Qed.

Lemma client_options_from_configuration_witness :
  ∃ o, client_configs (trace (Index.test Sample.server (Some Sample.cfg))) = [o]
     ∧ cc_connectionTimeoutMillis o = 5000%Z
     ∧ cc_host o = Some "db.example" ∧ cc_port o = Some 5432%Z
     ∧ cc_database o = Some "shop".
Proof.
  destruct (client_options_from_configuration id Sample.server
              (Sample.props None) Sample.cfg _ _ eq_refl eq_refl eq_refl eq_refl)
    as (_ & _ & Ht & _).
  eexists. split; [exact Ht|]. by split_and!.
Defined.

(** Whenever a client is built, the listeners [error], [end],
    [notification] and [notice] are registered on it, in this order, before
    [connect] is called, also when [connect] then fails; without an endpoint
    [attachLoggerToClient] registers nothing. *)
Theorem listeners_before_connect
    (d : Driver) (cfg : PostgresDatasourceConfiguration) (timeout : Z) :
  (valid cfg →
     ∃ o, trace (Index.createConnection d (Some cfg) timeout)
          = NewClient o :: map On ["error"; "end"; "notification"; "notice"]
            ++ [Connect]
        ∧ trace (Part000.createClient d (Some cfg) timeout)
          = NewClient o :: map On ["error"; "end"; "notification"; "notice"]
            ++ [Connect])
  ∧ (∀ c st, endpoint cfg = None →
       attachLoggerToClient c cfg st = (Returned (), st))
  ∧ (∀ c st, is_Some (endpoint cfg) →
       fst (attachLoggerToClient c cfg st) = Returned ()
       ∧ listeners (calls (snd (attachLoggerToClient c cfg st)))
         = listeners (calls st) ++ ["error"; "end"; "notification"; "notice"]).
Proof.
  split_and!.
  - intros Hv. exists (options_of cfg timeout). unfold trace, run.
    unfold Index.createConnection.
    rewrite connect_with_valid, Part000_createClient_valid by done. done.
  - intros c st Hep. unfold attachLoggerToClient. by rewrite Hep.
  - intros c st [ep Hep]. unfold attachLoggerToClient. rewrite Hep.
    run_calls. split; [done|]. unfold listeners.
    rewrite <- !app_assoc. by rewrite omap_app.
Qed.

Lemma listeners_before_connect_witness :
  listeners (trace (Index.createConnection Sample.unreachable (Some Sample.cfg) 30000))
    = ["error"; "end"; "notification"; "notice"]
  ∧ last (trace (Index.createConnection Sample.unreachable (Some Sample.cfg) 30000))
    = Some Connect.
Proof.
  destruct (listeners_before_connect Sample.unreachable Sample.cfg 30000)
    as (Hv & _ & _).
  destruct (Hv valid_Sample_cfg) as (o & -> & _). by split.
Defined.

(** [execute] sends what [getRequest] shows: the statement of the action
    when it is a string of length at least 1, and nothing otherwise. *)
Theorem execute_sends_the_request
    (norm : list RawRow → list RawRow) (d : Driver)
    (props : PluginExecutionProps) (cfg : PostgresDatasourceConfiguration) :
  datasourceConfiguration props = Some cfg → valid cfg →
  connect_answer d = None →
  let sent := match Index.getRequest (Some (actionConfiguration props)) with
              | Some sql => if bool_decide (sql = EmptyString) then [] else [sql]
              | None => []
              end in
  statements (trace (Index.execute norm d props)) = sent
  ∧ statements (trace (Part000.execute norm d props)) = sent
  ∧ Part000.getRequest (Some (actionConfiguration props))
    = Index.getRequest (Some (actionConfiguration props))
  ∧ Index.getRequest None = None ∧ Part000.getRequest None = None.
Proof.
  intros Hcfg Hv Hc sent. unfold sent, trace.
  rewrite (Index_execute_run d norm props cfg),
          (Part000_execute_run d norm props cfg) by done.
  rewrite Hc. cbv zeta. simpl.
  destruct (body (actionConfiguration props)) as [[|c sql]|]; by simpl.
Qed.

Lemma execute_sends_the_request_witness :
  statements (trace (Index.execute id Sample.failing (Sample.props (Some "drop"))))
    = ["drop"]
  ∧ statements (trace (Part000.execute id Sample.failing
                         (Sample.props (Some EmptyString)))) = [].
Proof.
  destruct (execute_sends_the_request id Sample.failing
              (Sample.props (Some "drop")) Sample.cfg
              eq_refl valid_Sample_cfg eq_refl) as (Hi & _).
  destruct (execute_sends_the_request id Sample.failing
              (Sample.props (Some EmptyString)) Sample.cfg
              eq_refl valid_Sample_cfg eq_refl) as (_ & Hp & _).
  by split.
Defined.

(** On an established connection [test] sends [SELECT NOW()] without
    values; it returns when the statement is answered and otherwise leaves
    with the message of the driver behind [Test Postgres connection failed, ]
    (part_000: when [end()] does not fail). *)
Theorem test_reports_the_liveness_statement
    (d : Driver) (cfg : PostgresDatasourceConfiguration) :
  valid cfg → connect_answer d = None →
  let expected :=
    match query_answer d "SELECT NOW()" None with
    | Rows _ => Returned ()
    | Fails m =>
        Thrown (IntegrationError ("Test Postgres connection failed, " +:+ m))
    end in
  outcome (Index.test d (Some cfg)) = expected
  ∧ (end_answer d = None → outcome (Part000.test d (Some cfg)) = expected)
  ∧ (Query "SELECT NOW()" None ∈ trace (Index.test d (Some cfg)))
  ∧ (Query "SELECT NOW()" None ∈ trace (Part000.test d (Some cfg))).
Proof.
  intros Hv Hc expected. unfold expected, outcome, trace.
  rewrite Index_test_run, Part000_test_run by done.
  rewrite Hc. simpl. split_and!.
  - by destruct (query_answer d _ _).
  - by intros ->.
  - apply list_elem_of_In. simpl. auto 10.
  - apply list_elem_of_In. simpl. auto 10.
Qed.

Lemma test_reports_the_liveness_statement_witness :
  outcome (Index.test Sample.server (Some Sample.cfg)) = Returned ()
  ∧ outcome (Part000.test Sample.failing (Some Sample.cfg))
    = Thrown (IntegrationError "Test Postgres connection failed, syntax error").
Proof.
  destruct (test_reports_the_liveness_statement Sample.server Sample.cfg
              valid_Sample_cfg eq_refl) as (Hi & _).
  destruct (test_reports_the_liveness_statement Sample.failing Sample.cfg
              valid_Sample_cfg eq_refl) as (_ & Hp & _).
  split; [exact Hi|exact (Hp eq_refl)].
Defined.

End LifecycleExtras.

(** * Further properties of the fold *)

Section FoldExtras.
Import Fold FoldSpec FoldTheory.

Lemma sum_list_insert (f : Table → nat) (l : list Table) i x y :
  l !! i = Some x →
  sum_list (map f (<[i:=y]> l)) + f x = sum_list (map f l) + f y.
Proof.
  revert i. induction l as [|a l IH]; intros [|i] Hi; simplify_eq/=; [lia|].
  specialize (IH i Hi). lia.
Qed.

Lemma total_columns_reducer acc r :
  total_columns (reducer acc r) = S (total_columns acc).
Proof.
  unfold total_columns, reducer.
  destruct (list_find _ acc) as [[i t]|] eqn:Hf.
  - apply list_find_Some in Hf as (Hi & _ & _).
    pose proof (sum_list_insert (λ t, length (columns t)) acc i t
      (set_columns t (columns t ++
         [mkColumn (if negb (bool_decide (attr_name r = Str.toLowerCase (attr_name r)))
                    then Str.quoted (attr_name r) else attr_name r)
                   (column_type r)])) Hi) as Hs.
    simpl in Hs. rewrite length_app in Hs. simpl in Hs. lia.
  - rewrite map_app, sum_list_with_app. simpl. lia.
Qed.

Lemma total_columns_fold rows : ∀ acc,
  total_columns (fold_left reducer rows acc) = total_columns acc + length rows.
Proof.
  induction rows as [|r rows IH]; intros acc; simpl; [lia|].
  rewrite IH, total_columns_reducer. lia.
Qed.

Lemma columns_add_key ents k : map columns (add_key ents k) = map columns ents.
Proof.
  unfold add_key. destruct (list_find _ ents) as [[i t]|] eqn:Hf; [|done].
  apply list_find_Some in Hf as (Hi & _ & _).
  change (map columns ?l) with (columns <$> l).
  rewrite list_fmap_insert. simpl. apply list_insert_id.
  by rewrite list_lookup_fmap, Hi.
Qed.

Lemma types_add_key ents k : map type (add_key ents k) = map type ents.
Proof.
  unfold add_key. destruct (list_find _ ents) as [[i t]|] eqn:Hf; [|done].
  apply list_find_Some in Hf as (Hi & _ & _).
  change (map type ?l) with (type <$> l).
  rewrite list_fmap_insert. simpl. apply list_insert_id.
  by rewrite list_lookup_fmap, Hi.
Qed.

Lemma add_keys_preserves ks : ∀ ents,
  map name (add_keys ents ks) = map name ents
  ∧ map columns (add_keys ents ks) = map columns ents
  ∧ map type (add_keys ents ks) = map type ents.
Proof.
  unfold add_keys. induction ks as [|k ks IH]; intros ents; simpl; [done|].
  destruct (IH (add_key ents k)) as (-> & -> & ->).
  by rewrite names_add_key, columns_add_key, types_add_key.
Qed.

Lemma total_keys_add_key ents k :
  total_keys (add_key ents k) =
  total_keys ents + (if decide (self_table k ∈ map name ents) then 1 else 0).
Proof.
  unfold total_keys. destruct (decide (self_table k ∈ map name ents)) as [Hin|Hin].
  - destruct (add_key_present ents k Hin) as (i & t & Hf & ->).
    apply list_find_Some in Hf as (Hi & _ & _).
    pose proof (sum_list_insert (λ t, length (keys t)) ents i t
                  (set_keys t (keys t ++ [key_of k])) Hi) as Hs.
    simpl in Hs. rewrite length_app in Hs. simpl in Hs. lia.
  - rewrite add_key_absent by done. lia.
Qed.

Lemma total_keys_add_keys ks : ∀ ents,
  total_keys (add_keys ents ks) =
  total_keys ents + length (filter (λ k, self_table k ∈ map name ents) ks).
Proof.
  unfold add_keys. induction ks as [|k ks IH]; intros ents; simpl; [done|].
  rewrite IH, total_keys_add_key, names_add_key.
  destruct (decide (self_table k ∈ map name ents)).
  - rewrite filter_cons_True by done. simpl. lia.
  - rewrite filter_cons_False by done. lia.
Qed.

Lemma elem_of_names_entities rows n :
  n ∈ map name (entities rows) ↔ n ∈ map table_name rows.
Proof. rewrite names_entities. apply elem_of_first_seen. Qed.

(** No column row is lost and none is counted twice: the tables hold as
    many column descriptors as there are rows, whatever the constraint
    rows. *)
Theorem fold_keeps_every_column (rows : list AttributeRow) (ks : list KeyRow) :
  total_columns (entities rows) = length rows
  ∧ total_columns (schema_tables rows ks) = length rows
  ∧ map columns (schema_tables rows ks) = map columns (entities rows).
Proof.
  assert (Hc : map columns (schema_tables rows ks) = map columns (entities rows))
    by apply add_keys_preserves.
  assert (He : total_columns (entities rows) = length rows).
  { unfold entities. by rewrite total_columns_fold. }
  split_and!; [done| |done].
  unfold total_columns in *. rewrite <- He.
  rewrite <- (map_map columns length), Hc. by rewrite map_map.
Qed.

(** The tables hold one key descriptor for each constraint row whose table
    is among the column rows, and none for the others; with no column row
    the result is empty whatever the constraint rows. *)
Theorem fold_keeps_keys_of_known_tables
    (rows : list AttributeRow) (ks : list KeyRow) :
  total_keys (schema_tables rows ks)
    = length (filter (λ k, self_table k ∈ map table_name rows) ks)
  ∧ total_keys (entities rows) = 0
  ∧ schema_tables [] ks = [].
Proof.
  assert (H0 : total_keys (entities rows) = 0).
  { rewrite entities_spec. unfold total_keys. rewrite map_map. simpl.
    induction (first_seen _); simpl; auto. }
  split_and!; [|done|].
  - unfold schema_tables. rewrite total_keys_add_keys, H0. simpl. f_equal.
    induction ks as [|k ks IH]; [done|].
    destruct (decide (self_table k ∈ map table_name rows)) as [Hin|Hin].
    + rewrite !filter_cons_True; [by rewrite IH|done|by apply elem_of_names_entities].
    + rewrite !filter_cons_False; [done|done|by rewrite elem_of_names_entities].
  - unfold schema_tables, add_keys. change (entities []) with (@nil Table).
    induction ks as [|k ks IH]; [done|]. simpl. apply IH.
Qed.

(** The result of [metadata]: the names of the tables are pairwise distinct
    and are the table names of the column rows; every table is of kind
    [TABLE] and has at least one column; attaching the keys changes neither
    names nor columns. *)
Theorem schema_tables_invariants (rows : list AttributeRow) (ks : list KeyRow) :
  NoDup (map name (schema_tables rows ks))
  ∧ map name (schema_tables rows ks) = map name (entities rows)
  ∧ (∀ n, n ∈ map name (schema_tables rows ks) ↔ n ∈ map table_name rows)
  ∧ (∀ i t, schema_tables rows ks !! i = Some t →
       type t = TABLE ∧ columns t ≠ [] ∧ 1 ≤ length (rows_of (name t) rows)).
Proof.
  assert (Hn : map name (schema_tables rows ks) = map name (entities rows))
    by apply add_keys_preserves.
  split_and!.
  - rewrite Hn. apply NoDup_names_entities.
  - done.
  - intros n. rewrite Hn. apply elem_of_names_entities.
  - intros i t (Hin & Hc & _)%schema_tables_lookup.
    apply rows_of_not_nil in Hin. split; [by destruct (type t)|].
    rewrite Hc. destruct (rows_of (name t) rows); [done|]. simpl. split; [done|lia].
Qed.

Lemma schema_tables_invariants_witness :
  type Sample.orders_table = TABLE ∧ columns Sample.orders_table ≠ []
  ∧ 1 ≤ length (rows_of (name Sample.orders_table) Sample.rows).
Proof.
  destruct (schema_tables_invariants Sample.rows Sample.keyrows) as (_ & _ & _ & H).
  exact (H 0 Sample.orders_table eq_refl).
Defined.

Lemma elem_of_names_rows_of rows n :
  n ∈ map table_name rows ↔ rows_of n rows ≠ [].
Proof.
  split; [apply rows_of_not_nil|].
  intros Hne. destruct (decide (n ∈ map table_name rows)) as [|Hn]; [done|].
  by apply rows_of_nil in Hn.
Qed.

(** The result depends on the column rows through the rows of each table
    only: two streams that give every table the same rows in the same order
    yield the same tables, up to the order of the tables; and it depends on
    the constraint rows through the rows of each table only. *)
Theorem fold_depends_on_rows_per_table
    (rows rows' : list AttributeRow) (ks ks' : list KeyRow) :
  (∀ n, rows_of n rows = rows_of n rows') →
  (∀ n, filter (λ k, self_table k = n) ks = filter (λ k, self_table k = n) ks') →
  schema_tables rows ks ≡ₚ schema_tables rows' ks'
  ∧ schema_tables rows ks = schema_tables rows ks'
  ∧ entities rows ≡ₚ entities rows'.
Proof.
  intros Hrows Hks.
  assert (Hperm : first_seen (map table_name rows)
                  ≡ₚ first_seen (map table_name rows')).
  { apply NoDup_Permutation; [apply NoDup_first_seen..|].
    intros n. rewrite !elem_of_first_seen, !elem_of_names_rows_of.
    by rewrite Hrows. }
  assert (Hkeys : ∀ n, keys_of n ks = keys_of n ks').
  { intros n. unfold keys_of. by rewrite Hks. }
  split_and!.
  - rewrite !schema_tables_spec.
    rewrite (map_ext _ (λ n, mkTable n TABLE (columns_of (rows_of n rows'))
                                     (keys_of n ks')))
      by (intros n; by rewrite Hrows, Hkeys).
    by apply Permutation_map.
  - rewrite !schema_tables_spec. apply map_ext. intros n. by rewrite Hkeys.
  - rewrite !entities_spec.
    rewrite (map_ext _ (table_of rows'))
      by (intros n; unfold table_of; by rewrite Hrows).
    by apply Permutation_map.
Qed.

Lemma fold_depends_on_rows_per_table_witness :
  entities Sample.rows ≡ₚ entities Sample.rows_regrouped.
Proof.
  apply (fold_depends_on_rows_per_table Sample.rows Sample.rows_regrouped
           Sample.keyrows Sample.keyrows).
  - intros n. unfold rows_of, Sample.rows, Sample.rows_regrouped.
    rewrite !filter_cons, !filter_nil. simpl.
    destruct (decide ("orders" = n)), (decide ("users" = n)); by simplify_eq.
  - done.
Defined.

Lemma length_append_string (s t : string) :
  String.length (s +:+ t) = String.length s + String.length t.
Proof. induction s as [|c s IH]; simpl; [done|]. by rewrite IH. Qed.

Lemma lower_char_spec c :
  (is_upper c = false → Str.lower_char c = c)
  ∧ (is_upper c = true → Str.lower_char c ≠ c)
  ∧ is_upper (Str.lower_char c) = false.
Proof.
  destruct c as [[] [] [] [] [] [] [] []]; by vm_compute.
Qed.

Lemma toLowerCase_fixed n : Str.toLowerCase n = n ↔ has_upper n = false.
Proof.
  induction n as [|c n IH]; simpl; [done|].
  destruct (lower_char_spec c) as (Hlow & Hup & _).
  destruct (is_upper c) eqn:Hc; simpl.
  - split; [|done]. intros [= Heq _]. by destruct Hup.
  - rewrite Hlow by done. rewrite <- IH. split; [by intros [= ->]|by intros ->].
Qed.

Lemma cased_name_has_upper n :
  cased_name n = (if has_upper n then Str.quoted n else n).
Proof.
  unfold cased_name. destruct (has_upper n) eqn:Hu.
  - rewrite bool_decide_eq_false_2; [done|].
    intros Heq. symmetry in Heq. apply toLowerCase_fixed in Heq. congruence.
  - rewrite bool_decide_eq_true_2; [done|].
    symmetry. by apply toLowerCase_fixed.
Qed.

Lemma quoted_differs n : Str.quoted n ≠ n.
Proof.
  intros Heq. apply (f_equal String.length) in Heq.
  unfold Str.quoted, Str.dquote in Heq.
  rewrite !length_append_string in Heq. simpl in Heq. lia.
Qed.

(** The casing rule as the reducer applies it, for names of ASCII
    characters.  A row whose table exists already adds, at the end of the
    columns of that table, a column stored in double quotes exactly when the
    name holds a capital letter [A]..[Z], and stored as it came otherwise; a
    row that creates its table stores the name as it came, capital letters
    or not.  Over a whole stream: the first name of a table is kept, every
    later one follows the rule. *)
Theorem later_columns_quoted_by_capital_letters (rows : list AttributeRow) :
  (∀ acc attribute i entity,
     list_find (λ o, name o = table_name attribute) acc = Some (i, entity) →
     ascii_only (attr_name attribute) = true →
     ∃ t', reducer acc attribute !! i = Some t'
         ∧ name t' = name entity
         ∧ columns t' = columns entity ++
             [mkColumn (if has_upper (attr_name attribute)
                        then Str.quoted (attr_name attribute)
                        else attr_name attribute)
                       (column_type attribute)])
  ∧ (∀ acc attribute,
       list_find (λ o, name o = table_name attribute) acc = None →
       reducer acc attribute =
       acc ++ [mkTable (table_name attribute) TABLE
                 [mkColumn (attr_name attribute) (column_type attribute)] []])
  ∧ (∀ i t,
       entities rows !! i = Some t →
       Forall (λ r, ascii_only (attr_name r) = true) (rows_of (name t) rows) →
       ∃ r rs, rows_of (name t) rows = r :: rs
             ∧ map col_name (columns t) =
               attr_name r ::
               map (λ r, if has_upper (attr_name r)
                         then Str.quoted (attr_name r) else attr_name r) rs)
  ∧ (∀ n, Str.quoted n ≠ n).
Proof.
  split_and!.
  - intros acc attribute i entity Hf _. unfold reducer. rewrite Hf.
    apply list_find_Some in Hf as (Hi & _ & _).
    rewrite list_lookup_insert_eq by eauto using lookup_lt_Some.
    eexists. split; [done|]. split; [done|]. simpl.
    rewrite <- cased_name_has_upper. unfold cased_name.
    by case_bool_decide.
  - intros acc attribute Hf. unfold reducer. by rewrite Hf.
  - intros i t Hi _.
    destruct (first_column_is_raw rows i t Hi) as (r & rs & Hrows & Hc).
    exists r, rs. split; [done|]. rewrite Hc. simpl. f_equal.
    rewrite map_map. apply map_ext. intros r'. simpl.
    apply cased_name_has_upper.
  - apply quoted_differs.
Qed.

Lemma later_columns_quoted_by_capital_letters_witness :
  ∃ r rs, rows_of "orders" Sample.rows = r :: rs
        ∧ map col_name (columns (mkTable "orders" TABLE
            [mkColumn "Id" "int4"; mkColumn (Str.quoted "Total") "numeric";
             mkColumn "note" "text"] []))
          = attr_name r ::
            map (λ r, if has_upper (attr_name r)
                      then Str.quoted (attr_name r) else attr_name r) rs.
Proof.
  destruct (later_columns_quoted_by_capital_letters Sample.rows)
    as (_ & _ & Hfold & _).
  apply (Hfold 0 (mkTable "orders" TABLE
            [mkColumn "Id" "int4"; mkColumn (Str.quoted "Total") "numeric";
             mkColumn "note" "text"] []) eq_refl).
  vm_compute. repeat constructor.
Defined.

Lemma first_seen_app_prefix l l' : ∃ more, first_seen (l ++ l') = first_seen l ++ more.
Proof.
  induction l' as [|x l' [more IH]] using rev_ind.
  - exists []. by rewrite !app_nil_r.
  - rewrite app_assoc, first_seen_snoc, IH. case_decide.
    + by exists more.
    + exists (more ++ [x]). by rewrite app_assoc.
Qed.

Lemma columns_of_app rs rs' :
  rs ≠ [] → columns_of (rs ++ rs') = columns_of rs ++ map later_column rs'.
Proof. destruct rs as [|r rs]; [done|]. intros _. simpl. by rewrite map_app. Qed.

(** Rows that follow never disturb what the rows before them built: the
    tables found so far keep their places and their columns, and a further
    row of such a table adds one column at the end, named by the casing
    rule. *)
Theorem fold_extends_earlier_tables (rows rows' : list AttributeRow) :
  (∃ more, map name (entities (rows ++ rows')) = map name (entities rows) ++ more)
  ∧ (∀ i t, entities rows !! i = Some t →
       ∃ t', entities (rows ++ rows') !! i = Some t'
           ∧ name t' = name t
           ∧ columns t' = columns t ++ map later_column (rows_of (name t) rows')).
Proof.
  destruct (first_seen_app_prefix (map table_name rows) (map table_name rows'))
    as [more Hmore].
  split.
  - exists more. by rewrite !names_entities, map_app.
  - intros i t Hi.
    pose proof Hi as (Hin & Hc & _)%entities_lookup.
    assert (Hn : first_seen (map table_name rows) !! i = Some (name t)).
    { rewrite <- names_entities. change (map name ?l) with (name <$> l).
      by rewrite list_lookup_fmap, Hi. }
    exists (table_of (rows ++ rows') (name t)). split_and!.
    + rewrite entities_spec, map_app, Hmore.
      change (map ?f ?l) with (f <$> l).
      rewrite list_lookup_fmap, lookup_app_l by eauto using lookup_lt_Some.
      by rewrite Hn.
    + done.
    + simpl. unfold rows_of at 1. rewrite filter_app.
      rewrite columns_of_app by (by apply rows_of_not_nil). by rewrite Hc.
Qed.

Lemma fold_extends_earlier_tables_witness :
  ∃ t', entities ([Sample.attr "Id" "int4" "orders" "public"]
                  ++ [Sample.attr "Total" "numeric" "orders" "public"]) !! 0
        = Some t'
      ∧ name t' = "orders"
      ∧ columns t' = [mkColumn "Id" "int4"] ++
                     map later_column
                       (rows_of "orders" [Sample.attr "Total" "numeric" "orders" "public"]).
Proof.
  destruct (fold_extends_earlier_tables
              [Sample.attr "Id" "int4" "orders" "public"]
              [Sample.attr "Total" "numeric" "orders" "public"]) as [_ H].
  exact (H 0 (mkTable "orders" TABLE [mkColumn "Id" "int4"] []) eq_refl).
Defined.

End FoldExtras.
